(** * Taskly backend: the per-user task cache of [backend/server.js]

    A shallow embedding of the request handlers of the SQLite backend
    ([backend/server.js]) together with the one handler of the Postgres
    backend ([backend/server-pg.js]) whose reply differs, and the properties
    of the cache-coherence layer stated over them.

    Conventions of the embedding:
    - a JavaScript string is the list of its UTF-16 code units;
    - the [tasks] and [logs] tables are lists of rows in insertion (rowid)
      order, the [id] column of [tasks] being a primary key;
    - a timestamp column holds the instant it denotes, as an integer (the
      fixed-width text SQLite writes for CURRENT_TIMESTAMP compares like that
      instant);
    - a handler is the chain of its callbacks in program order; [run]
      takes the requests one after the other, each to its reply, and
      [listTasks_lookup] and [listTasks_callback] are the two halves of a
      listing, for the schedules in which other requests are handled while
      its query is in flight;
    - what a handler reads from outside the program (the clock, the uuid
      generator, whether a statement fails) is its [Env] argument;
    - the identity check of [authMiddleware] has already produced [userId]. *)

From Stdlib Require Import ZArith NArith Lia String Ascii DecimalString.
From stdpp Require Import base option list gmap sorting.

Local Open Scope Z_scope.

(** ** JavaScript strings and values *)

Abbreviation jstr := (list N).

Definition js (s : string) : jstr :=
  (fun a => N_of_ascii a) <$> list_ascii_of_string s.

(** [WhiteSpace] and [LineTerminator] code points of ECMAScript, the ones
    [String.prototype.trim] strips. *)
Definition is_js_whitespace (c : N) : bool :=
  ((c =? 9) || (c =? 10) || (c =? 11) || (c =? 12) || (c =? 13) || (c =? 32)
   || (c =? 160) || (c =? 5760) || ((8192 <=? c) && (c <=? 8202))
   || (c =? 8232) || (c =? 8233) || (c =? 8239) || (c =? 8287)
   || (c =? 12288) || (c =? 65279))%N.

Fixpoint trimStart (s : jstr) : jstr :=
  match s with
  | [] => []
  | c :: s' => if is_js_whitespace c then trimStart s' else s
  end.

Definition trimEnd (s : jstr) : jstr := rev (trimStart (rev s)).

Definition trim (s : jstr) : jstr := trimEnd (trimStart s).

(** The values a field of a parsed JSON body can take, [undefined] standing
    for a missing field, and BigInt, which [JSON.stringify] refuses.  A number
    is kept as an integer: the handlers below only ask whether a value is a
    string and whether it is truthy. *)
#[warnings="-register-all"] Inductive jsval :=
| JUndefined
| JNull
| JBool (b : bool)
| JNum (n : Z)
| JBigInt (n : Z)
| JString (s : jstr)
| JArray (items : list jsval)
| JObject (fields : list (jstr * jsval)).

(** [ToBoolean]. *)
Definition truthy (v : jsval) : bool :=
  match v with
  | JUndefined | JNull => false
  | JBool b => b
  | JNum n | JBigInt n => negb (n =? 0)
  | JString s => match s with [] => false | _ => true end
  | JArray _ | JObject _ => true
  end.

(** [typeof v === 'string']. *)
Definition typeof_string (v : jsval) : bool :=
  match v with JString _ => true | _ => false end.

Definition str_of (v : jsval) : jstr :=
  match v with JString s => s | _ => [] end.

(** [arr.includes(v)] for an array of string literals. *)
Definition includes (arr : list jstr) (v : jsval) : bool :=
  match v with
  | JString s => bool_decide (s ∈ arr)
  | _ => false
  end.

(** Outcome of a call that may throw. *)
Inductive completion (A : Type) :=
| Return (a : A)
| Throw.
Arguments Return {A} a.
Arguments Throw {A}.

(** ** Rows *)

Record Task := {
  task_id : jstr;
  task_user_id : jstr;
  task_title : jstr;
  task_status : jstr;
  task_created_at : Z;
  task_updated_at : Z
}.

(** The columns [id, title, status, created_at, updated_at] of the list
    query. *)
Record TaskView := {
  view_id : jstr;
  view_title : jstr;
  view_status : jstr;
  view_created_at : Z;
  view_updated_at : Z
}.

Definition view_of (r : Task) : TaskView :=
  {| view_id := task_id r; view_title := task_title r;
     view_status := task_status r; view_created_at := task_created_at r;
     view_updated_at := task_updated_at r |}.

Record LogRow := {
  log_method : jstr;
  log_path : jstr;
  log_user_id : option jstr;
  log_body : option jstr;
  log_created_at : Z
}.

#[global] Instance Task_eq_dec : EqDecision Task.
Proof. solve_decision. Defined.
#[global] Instance TaskView_eq_dec : EqDecision TaskView.
Proof. solve_decision. Defined.

(** ** What the runtime and the SQL engine supply

    [order_by_created_at_desc] is the engine's [ORDER BY created_at DESC] on
    the rows a [WHERE] clause selected, given in table order.
    [JSON_stringify] is the runtime's [JSON.stringify]; its result is
    [None] when it returns [undefined]. *)
Class Platform := {
  order_by_created_at_desc : list Task → list Task;
  JSON_stringify : jsval → completion (option jstr)
}.

Definition created_desc (r1 r2 : Task) : Prop :=
  task_created_at r2 ≤ task_created_at r1.

(** What SQL promises of [ORDER BY created_at DESC]: the selected rows, each
    once, none before a row with a later [created_at]. *)
Class OrderByLaws (P : Platform) : Prop := {
  order_by_perm : ∀ rows, order_by_created_at_desc rows ≡ₚ rows;
  order_by_sorted : ∀ rows, StronglySorted created_desc (order_by_created_at_desc rows)
}.

(** ** Process state *)

Record CacheEntry := {
  ts : Z;
  tasks : list TaskView
}.

Record State := {
  db_tasks : list Task;
  db_logs : list LogRow;
  cache : gmap jstr CacheEntry;
  cacheHits : N;
  cacheMisses : N
}.

Definition set_db_tasks (rows : list Task) (s : State) : State :=
  {| db_tasks := rows; db_logs := db_logs s; cache := cache s;
     cacheHits := cacheHits s; cacheMisses := cacheMisses s |}.

Definition set_db_logs (rows : list LogRow) (s : State) : State :=
  {| db_tasks := db_tasks s; db_logs := rows; cache := cache s;
     cacheHits := cacheHits s; cacheMisses := cacheMisses s |}.

Definition set_cache (c : gmap jstr CacheEntry) (s : State) : State :=
  {| db_tasks := db_tasks s; db_logs := db_logs s; cache := c;
     cacheHits := cacheHits s; cacheMisses := cacheMisses s |}.

Definition init : State :=
  {| db_tasks := []; db_logs := []; cache := ∅; cacheHits := 0; cacheMisses := 0 |}.

(** What one request reads from outside the program. *)
Record Env := {
  uuid : jstr;          (* uuidv4() *)
  now : Z;              (* Date.now() in getCachedTasks *)
  now_put : Z;          (* Date.now() in setCachedTasks *)
  db_now : Z;           (* CURRENT_TIMESTAMP of the statements *)
  err1 : bool;          (* the first statement on [tasks] reports an error
                           of its own: I/O, lock, foreign key *)
  err2 : bool;          (* likewise for the second statement on [tasks] *)
  log_err : bool        (* the INSERT into [logs] reports an error *)
}.

(** ** Replies *)

Inductive Body :=
| BError (error : jstr)                               (* { error } *)
| BCreated (id user_id title status : jstr)           (* { id, user_id, title, status } *)
| BCreatedRow (id user_id title status : jstr) (created_at : Z)
                                                      (* RETURNING id, user_id, title, status, created_at *)
| BList (cached : bool) (tasks : list TaskView)       (* { cached, tasks } *)
| BStatus (id status : jstr)                          (* { id, status } *)
| BTitle (id title : jstr)                            (* { id, title } *)
| BSuccess.                                           (* { success: true } *)

Record Response := {
  code : Z;
  body : Body
}.

(** Keys of the JSON object a reply carries. *)
Definition body_keys (b : Body) : list string :=
  match b with
  | BError _ => ["error"]
  | BCreated _ _ _ _ => ["id"; "user_id"; "title"; "status"]
  | BCreatedRow _ _ _ _ _ => ["id"; "user_id"; "title"; "status"; "created_at"]
  | BList _ _ => ["cached"; "tasks"]
  | BStatus _ _ => ["id"; "status"]
  | BTitle _ _ => ["id"; "title"]
  | BSuccess => ["success"]
  end%string.

(** ** Observable steps of a handler, in program order *)

Inductive Stmt := Insert | Update | Delete.

Inductive Event :=
| EvDbRead                                  (* db.get / db.all completed *)
| EvDbWrite (st : Stmt) (changes : nat)     (* db.run completed without error *)
| EvCacheGet (userId : jstr) (hit : bool)
| EvCachePut (userId : jstr)
| EvInvalidate (userId : jstr)
| EvAudit (method path : jstr)              (* persistLog called *)
| EvRespond (code : Z).

(** State, and the steps taken so far. *)
Definition M (A : Type) : Type := State → A * State * list Event.

#[global] Instance M_ret : MRet M := λ A a s, (a, s, []).

#[global] Instance M_bind : MBind M := λ A B k m s,
  let '(a, s1, t1) := m s in
  let '(b, s2, t2) := k a s1 in
  (b, s2, t1 ++ t2).

Definition emit (ev : Event) : M unit := λ s, (tt, s, [ev]).
Definition modify (f : State → State) : M unit := λ s, (tt, f s, []).

Definition reply (m : M Response) (s : State) : Response := (m s).1.1.
Definition after (m : M Response) (s : State) : State := (m s).1.2.
Definition steps {A} (m : M A) (s : State) : list Event := (m s).2.

Definition respond (c : Z) (b : Body) : M Response :=
  emit (EvRespond c);; mret {| code := c; body := b |}.

(** ** Statements on the [tasks] table *)

(** [WHERE user_id = ?] *)
Definition owned_by (u : jstr) (r : Task) : Prop := task_user_id r = u.

#[global] Instance owned_by_dec (u : jstr) (r : Task) : Decision (owned_by u r).
Proof. unfold owned_by. apply _. Defined.

(** [INSERT INTO tasks (id, user_id, title, status) VALUES (?, ?, ?, ?)]:
    refused when the primary key is taken; both timestamps default to
    CURRENT_TIMESTAMP. *)
Definition sql_insert_task (id user_id title status : jstr) (at_ : Z)
    (rows : list Task) : option (list Task * nat) :=
  if bool_decide (id ∈ task_id <$> rows) then None
  else Some (rows ++ [{| task_id := id; task_user_id := user_id;
                         task_title := title; task_status := status;
                         task_created_at := at_; task_updated_at := at_ |}], 1%nat).

(** [SELECT id FROM tasks WHERE id = ? AND user_id = ?] through [db.get]:
    the first matching row, if any. *)
Definition sql_select_owned (id user_id : jstr) (rows : list Task) : option jstr :=
  task_id <$> head (filter (λ r, task_id r = id ∧ task_user_id r = user_id) rows).

Definition set_status (status : jstr) (at_ : Z) (r : Task) : Task :=
  {| task_id := task_id r; task_user_id := task_user_id r;
     task_title := task_title r; task_status := status;
     task_created_at := task_created_at r; task_updated_at := at_ |}.

Definition set_title (title : jstr) (at_ : Z) (r : Task) : Task :=
  {| task_id := task_id r; task_user_id := task_user_id r;
     task_title := title; task_status := task_status r;
     task_created_at := task_created_at r; task_updated_at := at_ |}.

(** [UPDATE tasks SET ... WHERE id = ?], [upd] being the assignment. *)
Definition sql_update_by_id (upd : Task → Task) (id : jstr)
    (rows : list Task) : option (list Task * nat) :=
  Some ((λ r, if bool_decide (task_id r = id) then upd r else r) <$> rows,
        length (filter (λ r, task_id r = id) rows)).

(** [DELETE FROM tasks WHERE id = ? AND user_id = ?]. *)
Definition sql_delete_task (id user_id : jstr)
    (rows : list Task) : option (list Task * nat) :=
  Some (filter (λ r, ¬ (task_id r = id ∧ task_user_id r = user_id)) rows,
        length (filter (λ r, task_id r = id ∧ task_user_id r = user_id) rows)).

(** [SELECT id, title, status, created_at, updated_at FROM tasks
     WHERE user_id = ? ORDER BY created_at DESC]. *)
Definition sql_select_tasks `{Platform} (user_id : jstr) (rows : list Task) : list TaskView :=
  view_of <$> order_by_created_at_desc (filter (owned_by user_id) rows).

(** [db.run]: [None] is the [err] argument of the callback, [Some n] is
    [this.changes]. *)
Definition db_run (failed : bool) (st : Stmt)
    (exec : list Task → option (list Task * nat)) : M (option nat) :=
  λ s, if failed then (None, s, [])
       else match exec (db_tasks s) with
            | None => (None, s, [])
            | Some (rows, changes) =>
                (Some changes, set_db_tasks rows s, [EvDbWrite st changes])
            end.

(** [db.get] and [db.all]: [None] is the [err] argument of the callback. *)
Definition db_query {A} (failed : bool) (q : list Task → A) : M (option A) :=
  λ s, if failed then (None, s, []) else (Some (q (db_tasks s)), s, [EvDbRead]).

(** ** Utilities *)

Definition safeJsonString `{Platform} (obj : jsval) : option jstr :=
  match JSON_stringify obj with
  | Return r => r
  | Throw => None
  end.

(** [v || null] on a string. *)
Definition or_null (v : jstr) : option jstr :=
  match v with [] => None | _ => Some v end.

(** [persistLog]: the row is written unless the statement reports an error,
    which is only printed. *)
Definition persistLog `{Platform} (e : Env) (method path userId : jstr)
    (body : jsval) : M unit :=
  let b := safeJsonString body in
  emit (EvAudit method path);;
  modify (λ s,
    if log_err e then s
    else set_db_logs (db_logs s ++
           [{| log_method := method; log_path := path;
               log_user_id := or_null userId;
               log_body := b; log_created_at := db_now e |}]) s).

(** ** In-memory per-user cache (30s) with counters *)

Definition CACHE_TTL_MS : Z := 30 * 1000.

Definition count_hit (s : State) : State :=
  {| db_tasks := db_tasks s; db_logs := db_logs s; cache := cache s;
     cacheHits := cacheHits s + 1; cacheMisses := cacheMisses s |}.

Definition count_miss (s : State) : State :=
  {| db_tasks := db_tasks s; db_logs := db_logs s; cache := cache s;
     cacheHits := cacheHits s; cacheMisses := cacheMisses s + 1 |}.

(** [None] is the [null] the function returns on a miss. *)
Definition getCachedTasks (now : Z) (userId : jstr) : M (option (list TaskView)) :=
  λ s, match cache s !! userId with
       | Some entry =>
           if bool_decide (now - ts entry < CACHE_TTL_MS)
           then (Some (tasks entry), count_hit s, [EvCacheGet userId true])
           else (None, count_miss s, [EvCacheGet userId false])
       | None => (None, count_miss s, [EvCacheGet userId false])
       end.

Definition setCachedTasks (now : Z) (userId : jstr) (rows : list TaskView) : M unit :=
  emit (EvCachePut userId);;
  modify (λ s, set_cache (<[userId := {| ts := now; tasks := rows |}]> (cache s)) s).

Definition invalidateCache (userId : jstr) : M unit :=
  emit (EvInvalidate userId);;
  modify (λ s, set_cache (delete userId (cache s)) s).

(** The three operations, as the callbacks of any number of requests in
    flight may call them, in any order. *)
Inductive CacheOp :=
| OpGet (now : Z) (userId : jstr)
| OpSet (now : Z) (userId : jstr) (rows : list TaskView)
| OpInvalidate (userId : jstr).

Definition cache_op (s : State) (op : CacheOp) : State :=
  match op with
  | OpGet now u => (getCachedTasks now u s).1.2
  | OpSet now u rows => (setCachedTasks now u rows s).1.2
  | OpInvalidate u => (invalidateCache u s).1.2
  end.

Definition cache_ops (ops : list CacheOp) (s : State) : State :=
  foldl cache_op s ops.

(** ** Routes of [backend/server.js] *)

(** [POST /api/tasks] *)
Definition createTask `{Platform} (e : Env) (userId : jstr) (title : jsval) : M Response :=
  if negb (truthy title) || negb (typeof_string title)
     || bool_decide (length (trim (str_of title)) = 0%nat)
  then respond 400 (BError (js "title required"))
  else
    let id := uuid e in
    r ← db_run (err1 e) Insert
          (sql_insert_task id userId (trim (str_of title)) (js "TODO") (db_now e));
    match r with
    | None => respond 500 (BError (js "DB error"))
    | Some _ =>
        invalidateCache userId;;
        persistLog e (js "POST") (js "/api/tasks") userId (JObject [(js "title", title)]);;
        respond 200 (BCreated id userId (str_of title) (js "TODO"))
    end.

(** [GET /api/tasks] *)
Definition listTasks `{Platform} (e : Env) (userId : jstr) : M Response :=
  cached ← getCachedTasks (now e) userId;
  match cached with
  | Some snapshot =>
      persistLog e (js "GET") (js "/api/tasks (cached)") userId (JObject []);;
      respond 200 (BList true snapshot)
  | None =>
      r ← db_query (err1 e) (sql_select_tasks userId);
      match r with
      | None => respond 500 (BError (js "DB error"))
      | Some rows =>
          setCachedTasks (now_put e) userId rows;;
          persistLog e (js "GET") (js "/api/tasks") userId (JObject []);;
          respond 200 (BList false rows)
      end
  end.

(** [PATCH /api/tasks/:id/status] *)
Definition updateStatus `{Platform} (e : Env) (userId taskId : jstr) (status : jsval) : M Response :=
  if negb (includes [js "TODO"; js "IN_PROGRESS"; js "DONE"] status)
  then respond 400 (BError (js "invalid status"))
  else
    row ← db_query (err1 e) (sql_select_owned taskId userId);
    match row with
    | None => respond 500 (BError (js "DB error"))
    | Some None => respond 404 (BError (js "task not found"))
    | Some (Some _) =>
        r ← db_run (err2 e) Update
              (sql_update_by_id (set_status (str_of status) (db_now e)) taskId);
        match r with
        | None => respond 500 (BError (js "DB error"))
        | Some _ =>
            invalidateCache userId;;
            persistLog e (js "PATCH") (js "/api/tasks/" ++ taskId ++ js "/status")
              userId (JObject [(js "status", status)]);;
            respond 200 (BStatus taskId (str_of status))
        end
    end.

(** [PATCH /api/tasks/:id] *)
Definition editTitle `{Platform} (e : Env) (userId taskId : jstr) (title : jsval) : M Response :=
  if negb (truthy title) || negb (typeof_string title)
  then respond 400 (BError (js "title required"))
  else
    row ← db_query (err1 e) (sql_select_owned taskId userId);
    match row with
    | None => respond 500 (BError (js "DB error"))
    | Some None => respond 404 (BError (js "task not found"))
    | Some (Some _) =>
        r ← db_run (err2 e) Update
              (sql_update_by_id (set_title (trim (str_of title)) (db_now e)) taskId);
        match r with
        | None => respond 500 (BError (js "DB error"))
        | Some _ =>
            invalidateCache userId;;
            persistLog e (js "PATCH") (js "/api/tasks/" ++ taskId)
              userId (JObject [(js "title", title)]);;
            respond 200 (BTitle taskId (str_of title))
        end
    end.

(** [DELETE /api/tasks/:id] *)
Definition deleteTask `{Platform} (e : Env) (userId taskId : jstr) : M Response :=
  r ← db_run (err1 e) Delete (sql_delete_task taskId userId);
  match r with
  | None => respond 500 (BError (js "DB error"))
  | Some O => respond 404 (BError (js "not found"))
  | Some _ =>
      invalidateCache userId;;
      persistLog e (js "DELETE") (js "/api/tasks/" ++ taskId) userId (JObject []);;
      respond 200 BSuccess
  end.

(** ** The route of [backend/server-pg.js] that replies otherwise *)

Module Pg.

(** [POST /api/tasks], once [pool.connect()] has handed over a client: the
    reply is the row the INSERT returns.  What the handler does when no
    client can be had is outside this definition. *)
Definition createTask `{Platform} (e : Env) (userId : jstr) (title : jsval) : M Response :=
  if negb (truthy title) || negb (typeof_string title)
     || bool_decide (length (trim (str_of title)) = 0%nat)
  then respond 400 (BError (js "title required"))
  else
    let id := uuid e in
    r ← db_run (err1 e) Insert
          (sql_insert_task id userId (trim (str_of title)) (js "TODO") (db_now e));
    match r with
    | None => respond 500 (BError (js "Server error"))
    | Some _ =>
        invalidateCache userId;;
        persistLog e (js "POST") (js "/api/tasks") userId (JObject [(js "title", title)]);;
        respond 200 (BCreatedRow id userId (trim (str_of title)) (js "TODO") (db_now e))
    end.

End Pg.

(** ** Requests, one after the other *)

Inductive Request :=
| CreateTask (userId : jstr) (title : jsval)
| ListTasks (userId : jstr)
| UpdateStatus (userId taskId : jstr) (status : jsval)
| EditTitle (userId taskId : jstr) (title : jsval)
| DeleteTask (userId taskId : jstr).

Definition req_user (r : Request) : jstr :=
  match r with
  | CreateTask u _ | ListTasks u | UpdateStatus u _ _ | EditTitle u _ _
  | DeleteTask u _ => u
  end.

Definition is_mutation (r : Request) : bool :=
  match r with ListTasks _ => false | _ => true end.

Definition handle `{Platform} (e : Env) (r : Request) : M Response :=
  match r with
  | CreateTask u title => createTask e u title
  | ListTasks u => listTasks e u
  | UpdateStatus u t status => updateStatus e u t status
  | EditTitle u t title => editTitle e u t title
  | DeleteTask u t => deleteTask e u t
  end.

Fixpoint run `{Platform} (rs : list (Env * Request)) (s : State) : State :=
  match rs with
  | [] => s
  | (e, r) :: rs' => run rs' (after (handle e r) s)
  end.

(** ** A listing, cut where [db.all] hands over to its callback

    [db.all] returns at once and its callback runs in a later turn of the
    event loop, so the handlers of other requests can run in between. *)

(** [GET /api/tasks] up to the call of [db.all]: the reply when the cache
    answers, [None] when the query has been issued. *)
Definition listTasks_lookup `{Platform} (e : Env) (userId : jstr) : M (option Response) :=
  cached ← getCachedTasks (now e) userId;
  match cached with
  | Some snapshot =>
      persistLog e (js "GET") (js "/api/tasks (cached)") userId (JObject []);;
      res ← respond 200 (BList true snapshot);
      mret (Some res)
  | None => mret None
  end.

(** The query of [db.all], when the engine runs it. *)
Definition listTasks_query `{Platform} (e : Env) (userId : jstr) : M (option (list TaskView)) :=
  db_query (err1 e) (sql_select_tasks userId).

(** The callback [(err, rows) => ...] of [db.all]; [None] is [err]. *)
Definition listTasks_callback `{Platform} (e : Env) (userId : jstr)
    (r : option (list TaskView)) : M Response :=
  match r with
  | None => respond 500 (BError (js "DB error"))
  | Some rows =>
      setCachedTasks (now_put e) userId rows;;
      persistLog e (js "GET") (js "/api/tasks") userId (JObject []);;
      respond 200 (BList false rows)
  end.

(** The three in a row, nothing in between. *)
Definition listTasks_in_one_go `{Platform} (e : Env) (userId : jstr) : M Response :=
  answered ← listTasks_lookup e userId;
  match answered with
  | Some res => mret res
  | None => r ← listTasks_query e userId; listTasks_callback e userId r
  end.

(** ** The order the specification asks of the list query

    Following the specification's words: by [created_at] descending, ties
    broken by insertion order, that is a stable sort of the rows in table
    order. *)

Fixpoint insert_desc (x : Task) (l : list Task) : list Task :=
  match l with
  | [] => [x]
  | y :: l' =>
      if bool_decide (task_created_at y ≤ task_created_at x)
      then x :: l
      else y :: insert_desc x l'
  end.

Definition stable_created_at_desc (rows : list Task) : list Task :=
  foldr insert_desc [] rows.

(** An engine that gives the rows of [ORDER BY created_at DESC] in that
    order, as SQLite does on the [tasks] table of [server.js]: it scans the
    table in rowid order, which is the order of insertion as no statement
    of [server.js] sets or changes a rowid, and its sorter keeps rows with
    equal keys in the order of the scan.  The query names no second key:
    the order among rows with equal [created_at] is the engine's doing. *)
Class TiesInTableOrder (P : Platform) : Prop :=
  order_by_stable : ∀ rows, order_by_created_at_desc rows = stable_created_at_desc rows.

Definition created_at_is (k : Z) (r : Task) : Prop := task_created_at r = k.

#[global] Instance created_at_is_dec (k : Z) (r : Task) : Decision (created_at_is k r).
Proof. unfold created_at_is. apply _. Defined.

(** ** An engine and a serializer, for the examples *)

Definition hex_digit (n : N) : N :=
  (if n <? 10 then 48 + n else 87 + n)%N.

Definition escape_u (c : N) : jstr :=
  js "\u" ++ [hex_digit (c / 4096); hex_digit (c / 256 mod 16);
              hex_digit (c / 16 mod 16); hex_digit (c mod 16)]%N.

Definition is_high_surrogate (c : N) : bool := ((55296 <=? c) && (c <=? 56319))%N.
Definition is_low_surrogate (c : N) : bool := ((56320 <=? c) && (c <=? 57343))%N.

(** [QuoteJSONString] without the surrounding quotes. *)
Fixpoint quote_chars (s : jstr) : jstr :=
  match s with
  | [] => []
  | c :: s' =>
      if (c =? 8)%N then js "\b" ++ quote_chars s'
      else if (c =? 9)%N then js "\t" ++ quote_chars s'
      else if (c =? 10)%N then js "\n" ++ quote_chars s'
      else if (c =? 12)%N then js "\f" ++ quote_chars s'
      else if (c =? 13)%N then js "\r" ++ quote_chars s'
      else if (c =? 34)%N then [92; 34]%N ++ quote_chars s'
      else if (c =? 92)%N then js "\\" ++ quote_chars s'
      else if (c <? 32)%N then escape_u c ++ quote_chars s'
      else if is_high_surrogate c then
        match s' with
        | d :: s'' =>
            if is_low_surrogate d then c :: d :: quote_chars s''
            else escape_u c ++ quote_chars s'
        | [] => escape_u c
        end
      else if is_low_surrogate c then escape_u c ++ quote_chars s'
      else c :: quote_chars s'
  end.

Definition quote (s : jstr) : jstr := [34%N] ++ quote_chars s ++ [34%N].

Definition decimal (n : Z) : jstr :=
  js (DecimalString.NilZero.string_of_int (Z.to_int n)).

Fixpoint join (sep : jstr) (parts : list jstr) : jstr :=
  match parts with
  | [] => []
  | [p] => p
  | p :: ps => p ++ sep ++ join sep ps
  end.

(** [JSON.stringify] on the values of [jsval]: [undefined] gives [undefined],
    a BigInt throws, an [undefined] field is left out and an [undefined]
    item is written [null]. *)
Fixpoint stringify (v : jsval) : completion (option jstr) :=
  match v with
  | JUndefined => Return None
  | JNull => Return (Some (js "null"))
  | JBool b => Return (Some (if b then js "true" else js "false"))
  | JNum n => Return (Some (decimal n))
  | JBigInt _ => Throw
  | JString s => Return (Some (quote s))
  | JArray items =>
      let parts :=
        (fix go (l : list jsval) : completion (list jstr) :=
           match l with
           | [] => Return []
           | x :: l' =>
               match stringify x, go l' with
               | Return o, Return ps => Return (default (js "null") o :: ps)
               | _, _ => Throw
               end
           end) items in
      match parts with
      | Return ps => Return (Some (js "[" ++ join (js ",") ps ++ js "]"))
      | Throw => Throw
      end
  | JObject fields =>
      let parts :=
        (fix go (l : list (jstr * jsval)) : completion (list jstr) :=
           match l with
           | [] => Return []
           | (k, x) :: l' =>
               match stringify x, go l' with
               | Return (Some t), Return ps => Return ((quote k ++ js ":" ++ t) :: ps)
               | Return None, Return ps => Return ps
               | _, _ => Throw
               end
           end) fields in
      match parts with
      | Return ps => Return (Some (js "{" ++ join (js ",") ps ++ js "}"))
      | Throw => Throw
      end
  end.

(** An engine whose sort keeps ties in table order. *)
Definition stable_engine : Platform :=
  {| order_by_created_at_desc := stable_created_at_desc;
     JSON_stringify := stringify |}.

(** ** Sample data *)

Definition env0 : Env :=
  {| uuid := js "t1"; now := 1000; now_put := 1001; db_now := 1;
     err1 := false; err2 := false; log_err := false |}.

Definition alice : jstr := js "alice".
Definition bob : jstr := js "bob".

Definition milk : Task :=
  {| task_id := js "t1"; task_user_id := alice; task_title := js "buy milk";
     task_status := js "TODO"; task_created_at := 1; task_updated_at := 1 |}.

Definition eggs : Task :=
  {| task_id := js "t2"; task_user_id := alice; task_title := js "buy eggs";
     task_status := js "TODO"; task_created_at := 1; task_updated_at := 1 |}.

Definition with_tasks (rows : list Task) : State := set_db_tasks rows init.

(** ** Notions used in the statements *)

(** The primary key: no two rows share an [id]. *)
Definition pk_ok (rows : list Task) : Prop := NoDup (task_id <$> rows).

Definition not_found (msg : string) : Response :=
  {| code := 404; body := BError (js msg) |}.

(** The three ways the handlers change the rows of [tasks]: a row of [u]
    with a fresh id is appended, a row of [u] is rewritten in place keeping
    its id and owner, or rows of [u] are removed. *)
Inductive store_change (u : jstr) (rows : list Task) : list Task → Prop :=
| change_insert (x : Task) :
    task_user_id x = u → task_id x ∉ task_id <$> rows →
    store_change u rows (rows ++ [x])
| change_update (upd : Task → Task) (id : jstr) (r : Task) :
    (∀ x, task_id (upd x) = task_id x) →
    (∀ x, task_user_id (upd x) = task_user_id x) →
    r ∈ rows → task_id r = id → task_user_id r = u →
    store_change u rows ((λ x, if bool_decide (task_id x = id) then upd x else x) <$> rows)
| change_delete (id : jstr) :
    store_change u rows (filter (λ x, ¬ (task_id x = id ∧ task_user_id x = u)) rows).

(** What one request leaves behind: nothing but counters and log rows; or
    a fresh entry for the caller, holding the caller's rows as they are in
    the store; or a changed store and no entry for the caller. *)
Inductive effect `{Platform} (e : Env) (r : Request) (s s' : State) : Prop :=
| effect_none :
    db_tasks s' = db_tasks s → cache s' = cache s →
    effect e r s s'
| effect_fill :
    is_mutation r = false →
    db_tasks s' = db_tasks s →
    cache s' = <[req_user r := {| ts := now_put e;
                                  tasks := sql_select_tasks (req_user r) (db_tasks s) |}]> (cache s) →
    effect e r s s'
| effect_write :
    is_mutation r = true →
    store_change (req_user r) (db_tasks s) (db_tasks s') →
    cache s' = delete (req_user r) (cache s) →
    effect e r s s'.

(** The entry of [u], if there is one, holds what the list query gives on
    the store as it is now. *)
Definition coherent_at `{Platform} (u : jstr) (s : State) : Prop :=
  ∀ entry, cache s !! u = Some entry →
           tasks entry = sql_select_tasks u (db_tasks s).

Definition is_read (ev : Event) : bool :=
  match ev with EvDbRead => true | _ => false end.

Definition is_invalidate_or_audit (ev : Event) : bool :=
  match ev with EvInvalidate _ | EvAudit _ _ => true | _ => false end.

Definition mark_done : Request := UpdateStatus alice (js "t1") (JString (js "DONE")).

Definition with_log_err (b : bool) (e : Env) : Env :=
  {| uuid := uuid e; now := now e; now_put := now_put e; db_now := db_now e;
     err1 := err1 e; err2 := err2 e; log_err := b |}.

(** ** Validation of credentials *)

(** The regular expressions [EMAIL_RE] is built from: a character, one or
    more characters of a class, a sequence. *)
Inductive regex :=
| RChar (c : N)
| RPlusClass (p : N → bool)
| RSeq (r1 r2 : regex).

(** What is left of [s] after each way of matching [[p]+] at its start. *)
Fixpoint plus_rests (p : N → bool) (s : jstr) : list jstr :=
  match s with
  | [] => []
  | c :: s' => if p c then s' :: plus_rests p s' else []
  end.

(** What is left of [s] after each way of matching [r] at its start. *)
Fixpoint regex_rests (r : regex) (s : jstr) : list jstr :=
  match r with
  | RChar c =>
      match s with
      | d :: s' => if (d =? c)%N then [s'] else []
      | [] => []
      end
  | RPlusClass p => plus_rests p s
  | RSeq r1 r2 => s' ← regex_rests r1 s; regex_rests r2 s'
  end.

(** [/^r$/.test(s)] *)
Definition regex_test (r : regex) (s : jstr) : bool :=
  bool_decide ([] ∈ regex_rests r s).

(** [[^\s@]] *)
Definition not_space_or_at (c : N) : bool :=
  negb (is_js_whitespace c) && negb (c =? 64)%N.

(** [/^[^\s@]+@[^\s@]+\.[^\s@]+$/] *)
Definition EMAIL_RE : regex :=
  RSeq (RPlusClass not_space_or_at)
    (RSeq (RChar 64)
       (RSeq (RPlusClass not_space_or_at)
          (RSeq (RChar 46) (RPlusClass not_space_or_at)))).

Definition validateEmail (e : jsval) : bool :=
  typeof_string e && regex_test EMAIL_RE (str_of e).

Definition validatePassword (p : jsval) : bool :=
  typeof_string p && bool_decide (6 ≤ length (str_of p))%nat.

(** ** Tokens and accounts *)

(** The payload [{ id, email }] of a token. *)
Record Payload := {
  payload_id : jstr;
  payload_email : jstr
}.

(** What the libraries supply.  [jwt_sign t p] is [jwt.sign(p, secret,
    { expiresIn: '7d' })] at second [t]; [jwt_verify now token] is
    [jwt.verify(token, secret)] at second [now], [None] when it throws;
    [bcrypt_hash salt pw] is [bcrypt.hash(pw, 10)] drawing [salt];
    [toLowerCase] is [String.prototype.toLowerCase]. *)
Class Crypto := {
  jwt_sign : Z → Payload → jstr;
  jwt_verify : Z → jstr → option Payload;
  bcrypt_hash : jstr → jstr → jstr;
  bcrypt_compare : jstr → jstr → bool;
  toLowerCase : jstr → jstr
}.

(** What the libraries promise: a token verifies to its payload from the
    second it is signed until it expires, seven days later; a token holds no
    space; a password compares equal to its own hash. *)
Class CryptoLaws (C : Crypto) : Prop := {
  jwt_verify_sign : ∀ t now p,
    0 ≤ t ≤ now → now < t + 7 * 24 * 3600 →
    jwt_verify now (jwt_sign t p) = Some p;
  jwt_sign_no_space : ∀ t p, 32%N ∉ jwt_sign t p;
  bcrypt_compare_hash : ∀ salt pw, bcrypt_compare pw (bcrypt_hash salt pw) = true
}.

(** [s.split(sep)] for a separator of one character. *)
Fixpoint split (sep : N) (s : jstr) : list jstr :=
  match s with
  | [] => [[]]
  | c :: s' =>
      if (c =? sep)%N then [] :: split sep s'
      else match split sep s' with
           | p :: ps => (c :: p) :: ps
           | [] => [[c]]
           end
  end.

(** The header [authMiddleware] lets through. *)
Definition bearer (token : jstr) : jstr := js "Bearer" ++ 32%N :: token.

Definition unauthorized (msg : string) : Response :=
  {| code := 401; body := BError (js msg) |}.

(** [authMiddleware]: the reply it sends, or the payload it stores in
    [req.user] before calling [next].  [authorization] is the header, if
    present; [clock] is the second at which the token is verified. *)
Definition authMiddleware `{Crypto} (clock : Z) (authorization : option jstr)
    : Response + Payload :=
  match authorization with
  | None | Some [] => inl (unauthorized "Missing auth token")
  | Some auth =>
      let parts := split 32 auth in
      if negb (bool_decide (length parts = 2%nat))
         || negb (bool_decide (parts !! 0%nat = Some (js "Bearer")))
      then inl (unauthorized "Invalid auth format")
      else
        let token := default [] (parts !! 1%nat) in
        match jwt_verify clock token with
        | Some payload => inr payload
        | None => inl (unauthorized "Invalid/expired token")
        end
  end.

(** A route registered behind [authMiddleware]. *)
Definition protected `{Crypto} (clock : Z) (authorization : option jstr)
    (route : jstr → M Response) : M Response :=
  match authMiddleware clock authorization with
  | inl r => respond (code r) (body r)
  | inr payload => route (payload_id payload)
  end.

(** The task routes as they are called over HTTP, the caller being known
    from the token only. *)
Inductive Call :=
| PostTask (title : jsval)
| GetTasks
| PatchStatus (taskId : jstr) (status : jsval)
| PatchTitle (taskId : jstr) (title : jsval)
| DeleteTaskById (taskId : jstr).

Definition request_of (userId : jstr) (c : Call) : Request :=
  match c with
  | PostTask title => CreateTask userId title
  | GetTasks => ListTasks userId
  | PatchStatus t status => UpdateStatus userId t status
  | PatchTitle t title => EditTitle userId t title
  | DeleteTaskById t => DeleteTask userId t
  end.

Definition serve `{Platform} `{Crypto} (e : Env) (clock : Z)
    (authorization : option jstr) (c : Call) : M Response :=
  protected clock authorization (λ userId, handle e (request_of userId c)).

(** A row of [users]. *)
Record Account := {
  account_id : jstr;
  account_email : jstr;
  account_password_hash : jstr;
  account_created_at : Z
}.

(** What [signup] and [login] read from outside the program. *)
Record AuthEnv := {
  auth_uuid : jstr;        (* uuidv4() *)
  auth_salt : jstr;        (* the salt bcrypt draws *)
  auth_clock : Z;          (* the second jwt.sign stamps *)
  auth_db_now : Z;         (* CURRENT_TIMESTAMP *)
  auth_db_err : bool       (* the statement reports an error that is not a
                              UNIQUE violation *)
}.

Inductive AuthReply :=
| AuthError (code : Z) (error : jstr)                 (* { error } *)
| AuthSession (token : jstr) (id email : jstr).       (* { token, user: { id, email } } *)

(** [INSERT INTO users (id, email, password_hash) VALUES (?, ?, ?)]: refused,
    with a message naming UNIQUE, when the id or the email is taken. *)
Definition sql_insert_user (id email hash : jstr) (at_ : Z)
    (rows : list Account) : option (list Account) :=
  if bool_decide (id ∈ account_id <$> rows ∨ email ∈ account_email <$> rows)
  then None
  else Some (rows ++ [{| account_id := id; account_email := email;
                         account_password_hash := hash;
                         account_created_at := at_ |}]).

(** [SELECT id, password_hash FROM users WHERE email = ?] through [db.get]. *)
Definition sql_select_user (email : jstr) (rows : list Account) : option Account :=
  head (filter (λ r, account_email r = email) rows).

Definition invalid_credentials_format : AuthReply :=
  AuthError 400 (js "Invalid email or password (min 6 chars)").

(** [POST /api/signup] *)
Definition signup `{Crypto} (e : AuthEnv) (email password : jsval)
    (users : list Account) : AuthReply * list Account :=
  if negb (validateEmail email) || negb (validatePassword password)
  then (invalid_credentials_format, users)
  else
    let id := auth_uuid e in
    let hash := bcrypt_hash (auth_salt e) (str_of password) in
    if auth_db_err e then (AuthError 500 (js "DB error"), users)
    else
      match sql_insert_user id (toLowerCase (str_of email)) hash (auth_db_now e) users with
      | None => (AuthError 400 (js "Email already in use"), users)
      | Some users' =>
          let token := jwt_sign (auth_clock e)
                         {| payload_id := id; payload_email := str_of email |} in
          (AuthSession token id (str_of email), users')
      end.

(** [POST /api/login] *)
Definition login `{Crypto} (e : AuthEnv) (email password : jsval)
    (users : list Account) : AuthReply :=
  if negb (validateEmail email) || negb (validatePassword password)
  then invalid_credentials_format
  else if auth_db_err e then AuthError 500 (js "DB error")
  else
    match sql_select_user (toLowerCase (str_of email)) users with
    | None => AuthError 400 (js "Invalid credentials")
    | Some row =>
        if negb (bcrypt_compare (str_of password) (account_password_hash row))
        then AuthError 400 (js "Invalid credentials")
        else
          let token := jwt_sign (auth_clock e)
                         {| payload_id := account_id row;
                            payload_email := str_of email |} in
          AuthSession token (account_id row) (str_of email)
    end.

(** ** Metrics and recent logs *)

(** The reply of [GET /metrics]. *)
Record Metrics := {
  metrics_cacheHits : N;
  metrics_cacheMisses : N;
  metrics_cacheSize : nat
}.

Definition metrics (s : State) : Metrics :=
  {| metrics_cacheHits := cacheHits s; metrics_cacheMisses := cacheMisses s;
     metrics_cacheSize := size (cache s) |}.

(** The columns [id, method, path, body, created_at] of the log query. *)
Record LogView := {
  entry_id : nat;
  entry_method : jstr;
  entry_path : jstr;
  entry_body : option jstr;
  entry_created_at : Z
}.

Definition log_view (ir : nat * LogRow) : LogView :=
  {| entry_id := ir.1; entry_method := log_method ir.2;
     entry_path := log_path ir.2; entry_body := log_body ir.2;
     entry_created_at := log_created_at ir.2 |}.

(** The rows of [logs] with their AUTOINCREMENT id: rows are only ever
    appended, so the id is the position, counted from 1. *)
Definition with_rowid (rows : list LogRow) : list (nat * LogRow) :=
  imap (λ i r, (S i, r)) rows.

(** The engine's [ORDER BY created_at DESC] on selected rows of [logs]. *)
Class LogEngine := {
  order_logs_by_created_at_desc : list (nat * LogRow) → list (nat * LogRow)
}.

Definition logged_desc (r1 r2 : nat * LogRow) : Prop :=
  log_created_at r2.2 ≤ log_created_at r1.2.

Class LogOrderLaws (L : LogEngine) : Prop := {
  order_logs_perm : ∀ rows, order_logs_by_created_at_desc rows ≡ₚ rows;
  order_logs_sorted : ∀ rows,
    StronglySorted logged_desc (order_logs_by_created_at_desc rows)
}.

(** [WHERE user_id = ?]: a NULL [user_id] equals nothing. *)
Definition logged_by (u : jstr) (ir : nat * LogRow) : Prop :=
  log_user_id ir.2 = Some u.

#[global] Instance logged_by_dec (u : jstr) (ir : nat * LogRow) : Decision (logged_by u ir).
Proof. unfold logged_by. apply _. Defined.

(** [SELECT id, method, path, body, created_at FROM logs WHERE user_id = ?
     ORDER BY created_at DESC LIMIT 50]. *)
Definition sql_select_recent_logs `{LogEngine} (user_id : jstr)
    (rows : list LogRow) : list (nat * LogRow) :=
  take 50 (order_logs_by_created_at_desc (filter (logged_by user_id) (with_rowid rows))).

Inductive LogsReply :=
| LogsError (code : Z) (error : jstr)     (* { error } *)
| LogsRows (rows : list LogView).         (* { rows } *)

(** [GET /api/logs/recent] *)
Definition recentLogs `{LogEngine} (e : Env) (userId : jstr) : M LogsReply :=
  λ s, if err1 e
       then (LogsError 500 (js "DB error"), s, [EvRespond 500])
       else (LogsRows (log_view <$> sql_select_recent_logs userId (db_logs s)), s,
             [EvDbRead; EvRespond 200]).

(** ** Engines and libraries for the examples *)

Fixpoint insert_log_desc (x : nat * LogRow) (l : list (nat * LogRow)) : list (nat * LogRow) :=
  match l with
  | [] => [x]
  | y :: l' =>
      if bool_decide (log_created_at y.2 ≤ log_created_at x.2)
      then x :: l
      else y :: insert_log_desc x l'
  end.

Definition stable_log_engine : LogEngine :=
  {| order_logs_by_created_at_desc := foldr insert_log_desc [] |}.

Definition ascii_lower (c : N) : N :=
  (if (65 <=? c) && (c <=? 90) then c + 32 else c)%N.

(** Libraries kept as simple as the laws allow: a token spells out the
    second it was signed and its payload, every number raised by 33; a hash
    is the salt followed by the password. *)
Definition toy_sign (t : Z) (p : Payload) : jstr :=
  (λ x, x + 33)%N <$>
    (Z.to_N t :: N.of_nat (length (payload_id p)) :: payload_id p ++ payload_email p).

Definition toy_verify (now : Z) (token : jstr) : option Payload :=
  match (λ x, x - 33)%N <$> token with
  | t :: n :: rest =>
      if bool_decide (Z.of_N t ≤ now < Z.of_N t + 7 * 24 * 3600)
      then Some {| payload_id := take (N.to_nat n) rest;
                   payload_email := drop (N.to_nat n) rest |}
      else None
  | _ => None
  end.

Definition toy_crypto : Crypto :=
  {| jwt_sign := toy_sign; jwt_verify := toy_verify;
     bcrypt_hash := λ salt pw, N.of_nat (length salt) :: salt ++ pw;
     bcrypt_compare := λ pw h,
       match h with
       | n :: rest => bool_decide (drop (N.to_nat n) rest = pw)
       | [] => false
       end;
     toLowerCase := fmap ascii_lower |}.

Definition ann : jsval := JString (js "Ann@Example.org").
Definition ann_lower : jsval := JString (js "ann@example.ORG").
Definition secret : jsval := JString (js "s3cret!").

Definition auth0 : AuthEnv :=
  {| auth_uuid := js "u1"; auth_salt := js "salt"; auth_clock := 100;
     auth_db_now := 100; auth_db_err := false |}.

Definition auth1 : AuthEnv :=
  {| auth_uuid := js "u2"; auth_salt := js "pepper"; auth_clock := 200;
     auth_db_now := 200; auth_db_err := false |}.

(** ** Further notions used in the statements *)

Definition valid_statuses : list jstr := [js "TODO"; js "IN_PROGRESS"; js "DONE"].

Definition failing : Env :=
  {| uuid := js "t3"; now := 2000; now_put := 2001; db_now := 2;
     err1 := false; err2 := true; log_err := false |}.

(** What holds of every row the task routes have written. *)
Definition row_ok (r : Task) : Prop :=
  task_status r ∈ valid_statuses ∧ trim (task_title r) = task_title r.

Definition bob_busy : list (Env * Request) :=
  [ ({| uuid := js "b1"; now := 7000; now_put := 7001; db_now := 7;
        err1 := false; err2 := false; log_err := false |},
     CreateTask bob (JString (js "call mum")));
    (env0, UpdateStatus bob (js "t1") (JString (js "DONE")));
    (env0, DeleteTask bob (js "t1"));
    (env0, EditTitle bob (js "b1") (JString (js "call dad")));
    (env0, ListTasks bob) ].

Definition same_identity (x x' : Task) : Prop :=
  task_id x' = task_id x ∧ task_user_id x' = task_user_id x
  ∧ task_created_at x' = task_created_at x.

Definition alice_busy : list (Env * Request) :=
  [ (env0, EditTitle alice (js "t1") (JString (js "buy oat milk")));
    (env0, UpdateStatus alice (js "t1") (JString (js "IN_PROGRESS")));
    (env0, DeleteTask bob (js "t1"));
    (env0, DeleteTask alice (js "t2")) ].

Definition is_list (r : Request) : bool := negb (is_mutation r).

(** What a route passes to [persistLog], [cached] telling the two listings
    apart. *)
Definition audit_method (r : Request) : jstr :=
  match r with
  | CreateTask _ _ => js "POST"
  | ListTasks _ => js "GET"
  | UpdateStatus _ _ _ | EditTitle _ _ _ => js "PATCH"
  | DeleteTask _ _ => js "DELETE"
  end.

Definition audit_path (r : Request) (cached : bool) : jstr :=
  match r with
  | CreateTask _ _ => js "/api/tasks"
  | ListTasks _ => if cached then js "/api/tasks (cached)" else js "/api/tasks"
  | UpdateStatus _ t _ => js "/api/tasks/" ++ t ++ js "/status"
  | EditTitle _ t _ | DeleteTask _ t => js "/api/tasks/" ++ t
  end.

Definition audit_body (r : Request) : jsval :=
  match r with
  | CreateTask _ title | EditTitle _ _ title => JObject [(js "title", title)]
  | UpdateStatus _ _ status => JObject [(js "status", status)]
  | ListTasks _ | DeleteTask _ _ => JObject []
  end.

Definition served_from_cache (b : Body) : bool :=
  match b with BList true _ => true | _ => false end.

Definition audit_row `{Platform} (e : Env) (r : Request) (cached : bool) : LogRow :=
  {| log_method := audit_method r; log_path := audit_path r cached;
     log_user_id := or_null (req_user r);
     log_body := safeJsonString (audit_body r);
     log_created_at := db_now e |}.

Definition log_at (t : Z) : LogRow :=
  {| log_method := js "GET"; log_path := js "/api/tasks";
     log_user_id := Some alice; log_body := Some (js "{}"); log_created_at := t |}.

Definition with_logs (rows : list LogRow) : State := set_db_logs rows init.

(** * Properties *)

(** ** The handler monad *)

Ltac unfold_handlers :=
  unfold reply, after, steps, handle, createTask, Pg.createTask, listTasks,
    updateStatus, editTitle, deleteTask, respond, persistLog, invalidateCache,
    setCachedTasks, getCachedTasks, db_run, db_query, emit, modify,
    mbind, mret, M_bind, M_ret in *.

Arguments sql_delete_task : simpl never.
Arguments sql_insert_task : simpl never.
Arguments sql_select_owned : simpl never.
Arguments sql_select_tasks : simpl never.
Arguments js : simpl never.
Arguments or_null : simpl never.
Arguments bearer : simpl never.

(** Case analysis on the tests of a route, innermost scrutinee first. *)
Ltac case_step :=
  match goal with
  | |- context [match ?x with _ => _ end] =>
      lazymatch x with
      | context [match _ with _ => _ end] => fail
      | _ => destruct x eqn:?; cbn
      end
  end.

Ltac case_route := repeat case_step.

Lemma set_db_tasks_same (s : State) : set_db_tasks (db_tasks s) s = s.
Proof. by destruct s. Qed.

Lemma set_cache_same (s : State) : set_cache (cache s) s = s.
Proof. by destruct s. Qed.

(** ** [trim] *)

Lemma trimStart_length (s : jstr) : (length (trimStart s) ≤ length s)%nat.
Proof.
  induction s as [|c s IH]; simpl; [lia|].
  destruct (is_js_whitespace c); simpl; lia.
Qed.

Lemma trimStart_whitespace (s : jstr) :
  forallb is_js_whitespace s = true → trimStart s = [].
Proof.
  induction s as [|c s IH]; simpl; [done|].
  intros [Hc Hs]%andb_prop. rewrite Hc. auto.
Qed.

Lemma trim_whitespace (s : jstr) :
  forallb is_js_whitespace s = true → trim s = [].
Proof.
  intros Hs. unfold trim, trimEnd.
  rewrite (trimStart_whitespace s) by done. reflexivity.
Qed.

Lemma trimEnd_length (s : jstr) : (length (trimEnd s) ≤ length s)%nat.
Proof.
  unfold trimEnd. rewrite length_rev.
  etrans; [apply trimStart_length|]. by rewrite length_rev.
Qed.

Lemma trim_length (s : jstr) : (length (trim s) ≤ length s)%nat.
Proof.
  unfold trim. etrans; [apply trimEnd_length|]. apply trimStart_length.
Qed.

Lemma trimStart_leading (c : N) (s : jstr) :
  is_js_whitespace c = true → (length (trimStart (c :: s)) < length (c :: s))%nat.
Proof.
  intros Hc. simpl. rewrite Hc. pose proof (trimStart_length s). lia.
Qed.

Lemma trim_leading (s : jstr) (c : N) :
  head s = Some c → is_js_whitespace c = true → (length (trim s) < length s)%nat.
Proof.
  destruct s as [|c' s]; [done|]. intros [= ->] Hc.
  unfold trim. eapply Nat.le_lt_trans; [apply trimEnd_length|].
  by apply trimStart_leading.
Qed.

Lemma trimEnd_trailing (s : jstr) (c : N) :
  last s = Some c → is_js_whitespace c = true → (length (trimEnd s) < length s)%nat.
Proof.
  intros Hl Hc. destruct s as [|c0 s0] using rev_ind; [done|].
  rewrite last_snoc in Hl. injection Hl as ->.
  unfold trimEnd. rewrite rev_app_distr, length_rev. simpl rev at 1. simpl app.
  eapply Nat.lt_le_trans; [by apply trimStart_leading|].
  simpl. rewrite length_rev, length_app. simpl. lia.
Qed.

Lemma trimStart_fixed (s : jstr) :
  length (trimStart s) = length s → trimStart s = s.
Proof.
  destruct s as [|c s]; [done|]. simpl.
  destruct (is_js_whitespace c); [|done].
  pose proof (trimStart_length s). simpl. lia.
Qed.

Lemma trim_trailing (s : jstr) (c : N) :
  last s = Some c → is_js_whitespace c = true → (length (trim s) < length s)%nat.
Proof.
  intros Hl Hc. unfold trim.
  destruct (decide (length (trimStart s) = length s)) as [Heq|Hne].
  - rewrite (trimStart_fixed _ Heq). by eapply trimEnd_trailing.
  - pose proof (trimStart_length s). pose proof (trimEnd_length (trimStart s)). lia.
Qed.

(** A title that starts or ends with whitespace is changed by [trim]. *)
Lemma trim_changes (s : jstr) (c : N) :
  head s = Some c ∨ last s = Some c → is_js_whitespace c = true → trim s ≠ s.
Proof.
  intros [Hh|Hl] Hc Heq.
  - pose proof (trim_leading _ _ Hh Hc). rewrite Heq in *. lia.
  - pose proof (trim_trailing _ _ Hl Hc). rewrite Heq in *. lia.
Qed.

(** ** The cache *)

(** C9 — Invalidation idempotence: [invalidateCache] always completes and
    leaves no entry for the user; a second call changes nothing, and a call
    for a user without an entry leaves the whole state as it was. *)
Theorem invalidateCache_idempotent (u : jstr) (s : State) :
  let s1 := (invalidateCache u s).1.2 in
  cache s1 !! u = None
  ∧ (invalidateCache u s1).1.2 = s1
  ∧ (cache s !! u = None → s1 = s).
Proof.
  unfold_handlers. simpl. split_and!.
  - apply lookup_delete_eq.
  - unfold set_cache. simpl. f_equal. apply delete_id, lookup_delete_eq.
  - intros Hnone. rewrite delete_id by done. apply set_cache_same.
Qed.

(** C2 — Cache get semantics with TTL: [getCachedTasks] returns the stored
    snapshot exactly when the user has an entry and [now - ts] is strictly
    below 30 seconds; otherwise it returns [null], and a missing entry and an
    expired one are treated alike: one more miss is counted and the cache is
    left as it is. *)
Theorem getCachedTasks_ttl (now : Z) (u : jstr) (s : State) :
  let r := (getCachedTasks now u s).1.1 in
  let s' := (getCachedTasks now u s).1.2 in
  (∀ snapshot,
     r = Some snapshot ↔
     ∃ entry, cache s !! u = Some entry ∧ now - ts entry < 30000
              ∧ tasks entry = snapshot)
  ∧ (r = None ↔
     cache s !! u = None
     ∨ ∃ entry, cache s !! u = Some entry ∧ 30000 ≤ now - ts entry)
  ∧ (r = None → s' = count_miss s)
  ∧ (is_Some r → s' = count_hit s).
Proof.
  unfold getCachedTasks, CACHE_TTL_MS.
  destruct (cache s !! u) as [entry|] eqn:Hentry; [case_bool_decide|]; simpl.
  - split_and!; [|split|done|done].
    + intros snapshot. split.
      * intros [= <-]. by exists entry.
      * by intros (en & [= <-] & _ & ->).
    + done.
    + intros [[=]|(en & [= <-] & ?)]. lia.
  - split_and!; [|split|done|by intros [? [=]]].
    + intros snapshot. split; [done|]. intros (en & [= <-] & ? & _). lia.
    + intros _. right. exists entry. split; [done|lia].
    + done.
  - split_and!; [|split|done|by intros [? [=]]].
    + intros snapshot. split; [done|]. by intros (en & [=] & _).
    + by left.
    + done.
Qed.

Lemma cache_op_cache (s : State) (op : CacheOp) :
  cache (cache_op s op)
  = match op with
    | OpGet _ _ => cache s
    | OpSet t u rows => <[u := {| ts := t; tasks := rows |}]> (cache s)
    | OpInvalidate u => delete u (cache s)
    end.
Proof.
  destruct op as [t u|t u rows|u]; cbn; [|done..].
  unfold getCachedTasks. destruct (cache s !! u); [case_bool_decide|]; done.
Qed.

(** In whatever order the cache is operated on after an invalidation, an
    entry found for the user was set after it. *)
Lemma entry_set_after_invalidate (u : jstr) (ops : list CacheOp) (s : State)
    (entry : CacheEntry) :
  cache (cache_ops ops (cache_op s (OpInvalidate u))) !! u = Some entry →
  ∃ ops1 ops2, ops = ops1 ++ OpSet (ts entry) u (tasks entry) :: ops2.
Proof.
  unfold cache_ops.
  induction ops as [|op ops IH] using rev_ind.
  - cbn [foldl]. by rewrite cache_op_cache, lookup_delete_eq.
  - rewrite foldl_snoc, cache_op_cache. destruct op as [t v|t v rows|v].
    + intros (ops1 & ops2 & ->)%IH.
      exists ops1, (ops2 ++ [OpGet t v]). by rewrite <- app_assoc.
    + destruct (decide (v = u)) as [->|Hne].
      * rewrite lookup_insert_eq. intros [= <-]. by exists ops, [].
      * rewrite lookup_insert_ne by done. intros (ops1 & ops2 & ->)%IH.
        exists ops1, (ops2 ++ [OpSet t v rows]). by rewrite <- app_assoc.
    + destruct (decide (v = u)) as [->|Hne].
      * by rewrite lookup_delete_eq.
      * rewrite lookup_delete_ne by done. intros (ops1 & ops2 & ->)%IH.
        exists ops1, (ops2 ++ [OpInvalidate v]). by rewrite <- app_assoc.
Qed.

(** ** Validation *)

(** C6 — Title validation: [createTask] answers 400 to an empty or
    whitespace-only title, and [editTitle] to an empty title; in both cases
    the reply is the only step taken and the state (store, cache, log) is
    unchanged. *)
Theorem title_required `{Platform} (e : Env) (u t title : jstr) (s : State) :
  forallb is_js_whitespace title = true →
  createTask e u (JString title) s
  = ({| code := 400; body := BError (js "title required") |}, s, [EvRespond 400])
  ∧ editTitle e u t (JString []) s
  = ({| code := 400; body := BError (js "title required") |}, s, [EvRespond 400]).
Proof.
  intros Hws. unfold_handlers. simpl.
  rewrite (trim_whitespace title Hws). simpl.
  by rewrite orb_true_r.
Qed.

Lemma title_required_witness :
  createTask (H:=stable_engine) env0 alice (JString (js "  ")) init
  = ({| code := 400; body := BError (js "title required") |}, init, [EvRespond 400])
  ∧ editTitle (H:=stable_engine) env0 alice (js "t1") (JString []) init
  = ({| code := 400; body := BError (js "title required") |}, init, [EvRespond 400]).
Proof. apply (title_required (H:=stable_engine) env0 alice (js "t1") (js "  ") init). reflexivity. Defined.

(** A title that is missing or is not a string is refused the same way. *)
Lemma title_not_a_string `{Platform} (e : Env) (u t : jstr) (title : jsval) (s : State) :
  typeof_string title = false →
  reply (createTask e u title) s = {| code := 400; body := BError (js "title required") |}
  ∧ after (createTask e u title) s = s
  ∧ reply (editTitle e u t title) s = {| code := 400; body := BError (js "title required") |}
  ∧ after (editTitle e u t title) s = s.
Proof.
  intros Hty. unfold_handlers. rewrite Hty. simpl.
  by rewrite !orb_true_r.
Qed.

(** ** Order of the steps of a mutation *)

(** C3 — Per-operation ordering: the steps of a successful mutation are
    reads of the store, then the write to the store, then the invalidation
    of the caller's cache entry, then the audit call, then the reply, in
    this order; no step of a mutation that does not succeed is an
    invalidation or an audit call. *)
Theorem mutate_invalidate_audit `{Platform} (e : Env) (r : Request) (s : State) :
  is_mutation r = true →
  let tr := steps (handle e r) s in
  (code (reply (handle e r) s) = 200 →
     ∃ pre st n method path,
       tr = pre ++ [EvDbWrite st n; EvInvalidate (req_user r);
                    EvAudit method path; EvRespond 200]
       ∧ forallb is_read pre = true)
  ∧ (code (reply (handle e r) s) ≠ 200 →
     existsb is_invalidate_or_audit tr = false).
Proof.
  intros Hmut. destruct r; try discriminate Hmut; unfold_handlers; simpl.
  - case_route; split; try done; intros _.
    by eexists [], Insert, _, (js "POST"), _.
  - case_route; split; try done; intros _.
    by eexists [EvDbRead], Update, _, (js "PATCH"), _.
  - case_route; split; try done; intros _.
    by eexists [EvDbRead], Update, _, (js "PATCH"), _.
  - case_route; split; try done; intros _.
    by eexists [], Delete, _, (js "DELETE"), _.
Qed.

Lemma mutate_invalidate_audit_witness :
  ∃ pre st n method path,
    steps (handle (H:=stable_engine) env0 (UpdateStatus alice (js "t1") (JString (js "DONE"))))
      (with_tasks [milk])
    = pre ++ [EvDbWrite st n; EvInvalidate alice; EvAudit method path; EvRespond 200]
    ∧ forallb is_read pre = true.
Proof.
  apply (mutate_invalidate_audit (H:=stable_engine) env0
           (UpdateStatus alice (js "t1") (JString (js "DONE"))) (with_tasks [milk]));
    reflexivity.
Defined.

(** ** The [tasks] table *)

Lemma pk_unique (rows : list Task) (r1 r2 : Task) :
  pk_ok rows → r1 ∈ rows → r2 ∈ rows → task_id r1 = task_id r2 → r1 = r2.
Proof.
  unfold pk_ok. induction rows as [|r rows IH]; [by intros _ ?%elem_of_nil|].
  rewrite fmap_cons, NoDup_cons, !elem_of_cons.
  intros [Hfresh Hnd] [->|H1] [->|H2] Hid; auto.
  - destruct Hfresh. rewrite Hid. by apply list_elem_of_fmap_2.
  - destruct Hfresh. rewrite <- Hid. by apply list_elem_of_fmap_2.
Qed.

Lemma filter_none {A} (P : A → Prop) `{!∀ x, Decision (P x)} (l : list A) :
  (∀ x, x ∈ l → ¬ P x) → filter P l = [].
Proof.
  induction l as [|x l IH]; [done|]. intros Hall.
  rewrite filter_cons_False by (apply Hall; left).
  apply IH. intros y Hy. apply Hall. by right.
Qed.

Lemma filter_all {A} (P : A → Prop) `{!∀ x, Decision (P x)} (l : list A) :
  (∀ x, x ∈ l → P x) → filter P l = l.
Proof.
  induction l as [|x l IH]; [done|]. intros Hall.
  rewrite filter_cons_True by (apply Hall; left).
  f_equal. apply IH. intros y Hy. apply Hall. by right.
Qed.

Lemma sql_select_owned_Some (id u x : jstr) (rows : list Task) :
  sql_select_owned id u rows = Some x →
  x = id ∧ ∃ r, r ∈ rows ∧ task_id r = id ∧ task_user_id r = u.
Proof.
  unfold sql_select_owned. intros Hsel.
  destruct (head _) as [r|] eqn:Hhead; [|done].
  apply head_Some_elem_of, list_elem_of_filter in Hhead as [[Hid Hu] Hin].
  injection Hsel as <-. eauto.
Qed.

Lemma sql_select_owned_found (r : Task) (rows : list Task) :
  r ∈ rows → sql_select_owned (task_id r) (task_user_id r) rows = Some (task_id r).
Proof.
  intros Hin. unfold sql_select_owned.
  destruct (filter _ rows) as [|r' l] eqn:Hf.
  - by destruct (filter_nil_not_elem_of _ _ r Hf).
  - assert (r' ∈ filter (λ r0, task_id r0 = task_id r ∧ task_user_id r0 = task_user_id r) rows)
      as [[Hid _] _]%list_elem_of_filter by (rewrite Hf; left).
    simpl. by rewrite Hid.
Qed.

Lemma sql_select_owned_none (id u : jstr) (rows : list Task) :
  (∀ r, r ∈ rows → task_id r = id → task_user_id r ≠ u) →
  sql_select_owned id u rows = None.
Proof.
  intros Hnone. unfold sql_select_owned.
  rewrite filter_none; [done|]. intros r Hin [Hid Hu]. by eapply Hnone.
Qed.

(** A task of another user is not found by the ownership check. *)
Lemma sql_select_owned_other (T : Task) (u : jstr) (rows : list Task) :
  pk_ok rows → T ∈ rows → task_user_id T ≠ u →
  sql_select_owned (task_id T) u rows = None.
Proof.
  intros Hpk HT Hne. apply sql_select_owned_none.
  intros r Hr Hid. by rewrite (pk_unique rows r T Hpk Hr HT Hid).
Qed.

Lemma sql_delete_other (T : Task) (u : jstr) (rows : list Task) :
  pk_ok rows → T ∈ rows → task_user_id T ≠ u →
  sql_delete_task (task_id T) u rows = Some (rows, 0%nat).
Proof.
  intros Hpk HT Hne. unfold sql_delete_task.
  assert (∀ r, r ∈ rows → ¬ (task_id r = task_id T ∧ task_user_id r = u)) as Hnone.
  { intros r Hr [Hid Hu]. by rewrite (pk_unique rows r T Hpk Hr HT Hid) in Hu. }
  rewrite (filter_none (λ r, task_id r = task_id T ∧ task_user_id r = u)) by done.
  rewrite filter_all; [done|]. intros r Hr. by apply Hnone.
Qed.

Lemma sql_delete_absent (id u : jstr) (rows : list Task) :
  (∀ r, r ∈ rows → task_id r ≠ id) →
  sql_delete_task id u rows = Some (rows, 0%nat).
Proof.
  intros Habs. unfold sql_delete_task.
  rewrite (filter_none (λ r, task_id r = id ∧ task_user_id r = u))
    by (intros r Hr [Hid _]; by eapply Habs).
  rewrite filter_all; [done|]. intros r Hr [Hid _]. by eapply Habs.
Qed.

(** Rows of [u] are untouched by an update of a row of somebody else. *)
Lemma filter_user_update (upd : Task → Task) (id u : jstr) (rows : list Task) :
  (∀ r, r ∈ rows → task_id r = id → task_user_id r ≠ u) →
  (∀ r, task_user_id (upd r) = task_user_id r) →
  filter (owned_by u) ((λ r, if bool_decide (task_id r = id) then upd r else r) <$> rows)
  = filter (owned_by u) rows.
Proof.
  intros Hother Hupd. induction rows as [|r rows IH]; [done|].
  rewrite fmap_cons, !filter_cons, IH
    by (intros r' Hr' Hid'; apply (Hother r'); [by right|done]).
  case_bool_decide as Hid; [|done].
  assert (task_user_id r ≠ u) by (apply (Hother r); [by left|done]).
  unfold owned_by. rewrite !decide_False; [done..|by rewrite Hupd].
Qed.

Lemma filter_user_delete (id v u : jstr) (rows : list Task) :
  v ≠ u →
  filter (owned_by u) (filter (λ r, ¬ (task_id r = id ∧ task_user_id r = v)) rows)
  = filter (owned_by u) rows.
Proof.
  intros Hne. induction rows as [|r rows IH]; [done|].
  rewrite !filter_cons. unfold owned_by in *.
  destruct (decide (¬ (task_id r = id ∧ task_user_id r = v))) as [Hkeep|Hdrop].
  - rewrite filter_cons, IH. done.
  - rewrite IH. apply dec_stable in Hdrop as [_ Hv].
    rewrite decide_False; [done|congruence].
Qed.

Lemma pk_ok_update (upd : Task → Task) (id : jstr) (rows : list Task) :
  (∀ r, task_id (upd r) = task_id r) →
  pk_ok rows →
  pk_ok ((λ r, if bool_decide (task_id r = id) then upd r else r) <$> rows).
Proof.
  intros Hupd. unfold pk_ok. intros Hnd.
  replace (task_id <$> _) with (task_id <$> rows); [done|].
  clear Hnd. induction rows as [|r rows IH]; [done|].
  rewrite !fmap_cons, <- IH. f_equal. case_bool_decide; by rewrite ?Hupd.
Qed.

Lemma pk_ok_filter (P : Task → Prop) `{!∀ r, Decision (P r)} (rows : list Task) :
  pk_ok rows → pk_ok (filter P rows).
Proof.
  unfold pk_ok. induction rows as [|r rows IH]; [done|].
  rewrite fmap_cons, NoDup_cons. intros [Hfresh Hnd].
  rewrite filter_cons. destruct (decide (P r)); [|auto].
  rewrite fmap_cons, NoDup_cons. split; [|auto].
  intros (r' & Hid & [_ Hin]%list_elem_of_filter)%list_elem_of_fmap.
  apply Hfresh. rewrite Hid. by apply list_elem_of_fmap_2.
Qed.

Lemma pk_ok_insert (id u title status : jstr) (t : Z) (rows rows' : list Task) (n : nat) :
  sql_insert_task id u title status t rows = Some (rows', n) →
  pk_ok rows → pk_ok rows'.
Proof.
  unfold sql_insert_task, pk_ok. case_bool_decide as Hfresh; [done|].
  intros [= <- _] Hnd. rewrite fmap_app. apply NoDup_app. split_and!; [done| |].
  - intros x Hx ->%list_elem_of_singleton. done.
  - apply NoDup_singleton.
Qed.

(** ** Ownership *)

(** C5 — Ownership isolation: on a task [T] of user [u1], [updateStatus],
    [editTitle] and [deleteTask] called by another user [u2] answer 404 as
    soon as the status or title sent is acceptable and the store answers;
    whatever is sent, they leave the whole state as it was, and they reply
    exactly what they reply when no task has that id. *)
Theorem ownership_isolation `{Platform} (e : Env) (u1 u2 : jstr) (T : Task)
    (status title : jsval) (s : State) :
  pk_ok (db_tasks s) → T ∈ db_tasks s → task_user_id T = u1 → u1 ≠ u2 →
  let upd := updateStatus e u2 (task_id T) status in
  let edit := editTitle e u2 (task_id T) title in
  let del := deleteTask e u2 (task_id T) in
  (err1 e = false →
     (includes [js "TODO"; js "IN_PROGRESS"; js "DONE"] status = true →
      reply upd s = not_found "task not found")
     ∧ (truthy title = true → typeof_string title = true →
        reply edit s = not_found "task not found")
     ∧ reply del s = not_found "not found")
  ∧ (after upd s = s ∧ after edit s = s ∧ after del s = s)
  ∧ (∀ s0, (∀ r, r ∈ db_tasks s0 → task_id r ≠ task_id T) →
       reply upd s0 = reply upd s ∧ reply edit s0 = reply edit s
       ∧ reply del s0 = reply del s).
Proof.
  intros Hpk HT Hu1 Hne upd edit del. subst upd edit del.
  assert (task_user_id T ≠ u2) as Hother by congruence.
  pose proof (sql_select_owned_other T u2 _ Hpk HT Hother) as Hsel.
  pose proof (sql_delete_other T u2 _ Hpk HT Hother) as Hdel.
  split_and!.
  - intros Herr. split_and!.
    + intros Hstatus. unfold_handlers. rewrite Hstatus, Herr. cbn. by rewrite Hsel.
    + intros Htruthy Hstring. unfold_handlers.
      rewrite Htruthy, Hstring, Herr. cbn. by rewrite Hsel.
    + unfold_handlers. rewrite Herr. cbn. by rewrite Hdel.
  - unfold_handlers; cbn; repeat first [rewrite Hsel; cbn|case_step]; done.
  - unfold_handlers; cbn; repeat first [rewrite Hsel; cbn|case_step]; done.
  - unfold_handlers; cbn; repeat first [rewrite Hdel; cbn|case_step]; try done.
    apply set_db_tasks_same.
  - intros s0 Habs.
    assert (sql_select_owned (task_id T) u2 (db_tasks s0) = None) as Hsel0.
    { apply sql_select_owned_none. intros r Hr Hid. by destruct (Habs r Hr). }
    pose proof (sql_delete_absent (task_id T) u2 _ Habs) as Hdel0.
    split_and!; unfold_handlers; cbn;
      repeat first [rewrite Hsel; cbn|rewrite Hsel0; cbn|rewrite Hdel; cbn
                   |rewrite Hdel0; cbn|case_step]; done.
Qed.

Lemma ownership_isolation_witness :
  let upd := updateStatus (H:=stable_engine) env0 bob (js "t1") (JString (js "DONE")) in
  let edit := editTitle (H:=stable_engine) env0 bob (js "t1") (JString (js "mine")) in
  let del := deleteTask (H:=stable_engine) env0 bob (js "t1") in
  let s := with_tasks [milk] in
  (reply upd s = not_found "task not found"
   ∧ reply edit s = not_found "task not found"
   ∧ reply del s = not_found "not found")
  ∧ (after upd s = s ∧ after edit s = s ∧ after del s = s)
  ∧ (reply upd init = reply upd s ∧ reply edit init = reply edit s
     ∧ reply del init = reply del s).
Proof.
  destruct (ownership_isolation (H:=stable_engine) env0 alice bob milk
              (JString (js "DONE")) (JString (js "mine")) (with_tasks [milk]))
    as (Hnf & Hsame & Habs).
  - apply NoDup_singleton.
  - apply list_elem_of_singleton. reflexivity.
  - reflexivity.
  - discriminate.
  - split; [|split].
    + destruct (Hnf eq_refl) as (Hu & He & Hd).
      split; [|split]; [apply Hu|apply He|apply Hd]; reflexivity.
    + exact Hsame.
    + apply Habs. intros r Hr. inversion Hr.
Defined.

(** The owner, for comparison, is served. *)
Example owner_is_served :
  code (reply (updateStatus (H:=stable_engine) env0 alice (js "t1") (JString (js "DONE")))
          (with_tasks [milk])) = 200
  ∧ code (reply (editTitle (H:=stable_engine) env0 alice (js "t1") (JString (js "mine")))
            (with_tasks [milk])) = 200
  ∧ reply (deleteTask (H:=stable_engine) env0 alice (js "t1")) (with_tasks [milk])
    = {| code := 200; body := BSuccess |}
  ∧ reply (deleteTask (H:=stable_engine) env0 alice (js "t1"))
      (after (deleteTask (H:=stable_engine) env0 alice (js "t1")) (with_tasks [milk]))
    = not_found "not found".
Proof. vm_compute. done. Qed.

(** ** What a request does to the store and to the cache *)

Lemma insert_change (id u title status : jstr) (t : Z) (rows rows' : list Task) (n : nat) :
  sql_insert_task id u title status t rows = Some (rows', n) →
  store_change u rows rows'.
Proof.
  unfold sql_insert_task. case_bool_decide as Hfresh; [done|].
  intros [= <- _]. by apply change_insert.
Qed.

Lemma update_change (upd : Task → Task) (id u x : jstr) (rows : list Task) :
  (∀ r, task_id (upd r) = task_id r) →
  (∀ r, task_user_id (upd r) = task_user_id r) →
  sql_select_owned id u rows = Some x →
  store_change u rows ((λ r, if bool_decide (task_id r = id) then upd r else r) <$> rows).
Proof.
  intros Hid Hu (_ & r & Hr & Hrid & Hru)%sql_select_owned_Some.
  by eapply change_update.
Qed.

Lemma delete_change (id u : jstr) (rows rows' : list Task) (n : nat) :
  sql_delete_task id u rows = Some (rows', n) →
  store_change u rows rows' ∧ (n = 0%nat → rows' = rows).
Proof.
  unfold sql_delete_task. intros [= <- <-]. split; [apply change_delete|].
  intros Hnone%nil_length_inv. apply filter_all.
  intros r Hr Hmatch. by destruct (filter_nil_not_elem_of _ _ r Hnone Hmatch).
Qed.

Lemma handle_effect `{Platform} (e : Env) (r : Request) (s : State) :
  effect e r s (after (handle e r) s).
Proof.
  destruct r as [u title|u|u t status|u t title|u t];
    unfold_handlers; cbn; case_route;
    try (by apply effect_none);
    try (by apply effect_fill);
    try (apply effect_write; [done| |done]; cbn);
    try (by eapply insert_change);
    try (by eapply update_change);
    try (by eapply delete_change).
  apply effect_none; [|done]. cbn. by eapply delete_change.
Qed.

Lemma store_change_pk_ok (u : jstr) (rows rows' : list Task) :
  store_change u rows rows' → pk_ok rows → pk_ok rows'.
Proof.
  intros [x Hu Hfresh|upd id r Hid Hu Hr _ _|id] Hpk.
  - unfold pk_ok. rewrite fmap_app. apply NoDup_app. split_and!; [done| |].
    + by intros y Hy ->%list_elem_of_singleton.
    + apply NoDup_singleton.
  - by apply pk_ok_update.
  - by apply pk_ok_filter.
Qed.

(** A change made for [v] leaves the rows of any other user [u] as they
    were, in the same table order. *)
Lemma store_change_other (u v : jstr) (rows rows' : list Task) :
  store_change v rows rows' → pk_ok rows → v ≠ u →
  filter (owned_by u) rows' = filter (owned_by u) rows.
Proof.
  intros [x Hv Hfresh|upd id r Hid Hu Hr Hrid Hrv|id] Hpk Hne.
  - rewrite filter_app, filter_cons_False, filter_nil, app_nil_r; [done|].
    unfold owned_by. congruence.
  - apply filter_user_update; [|done].
    intros r' Hr' Hid'. rewrite (pk_unique rows r' r Hpk Hr' Hr) by congruence.
    congruence.
  - by apply filter_user_delete.
Qed.

Lemma handle_pk_ok `{Platform} (e : Env) (r : Request) (s : State) :
  pk_ok (db_tasks s) → pk_ok (db_tasks (after (handle e r) s)).
Proof.
  intros Hpk. destruct (handle_effect e r s) as [-> _| _ -> _|_ Hch _]; [done..|].
  by eapply store_change_pk_ok.
Qed.

Lemma run_pk_ok `{Platform} (rs : list (Env * Request)) (s : State) :
  pk_ok (db_tasks s) → pk_ok (db_tasks (run rs s)).
Proof.
  revert s. induction rs as [|[e r] rs IH]; intros s Hpk; [done|].
  cbn. by apply IH, handle_pk_ok.
Qed.

(** ** Coherence of the cache *)

Lemma handle_coherent `{Platform} (u : jstr) (e : Env) (r : Request) (s : State) :
  pk_ok (db_tasks s) → coherent_at u s → coherent_at u (after (handle e r) s).
Proof.
  intros Hpk Hco entry.
  destruct (handle_effect e r s) as [Hdb Hc|_ Hdb Hc|_ Hch Hc]; rewrite Hc.
  - rewrite Hdb. apply Hco.
  - rewrite Hdb. destruct (decide (req_user r = u)) as [<-|Hne].
    + rewrite lookup_insert_eq. by intros [= <-].
    + rewrite lookup_insert_ne by done. apply Hco.
  - destruct (decide (req_user r = u)) as [<-|Hne].
    + by rewrite lookup_delete_eq.
    + rewrite lookup_delete_ne by done. intros Hentry.
      unfold sql_select_tasks.
      rewrite (store_change_other u (req_user r) _ _ Hch Hpk Hne).
      by apply Hco.
Qed.

Lemma run_coherent `{Platform} (u : jstr) (rs : list (Env * Request)) (s : State) :
  pk_ok (db_tasks s) → coherent_at u s → coherent_at u (run rs s).
Proof.
  revert s. induction rs as [|[e r] rs IH]; intros s Hpk Hco; [done|].
  cbn. apply IH; [by apply handle_pk_ok|by apply handle_coherent].
Qed.

(** Whatever [listTasks] returns under coherence, from the cache or from
    the store, is the caller's rows as the store has them. *)
Lemma listTasks_coherent `{Platform} (e : Env) (u : jstr) (s : State)
    (cached : bool) (rows : list TaskView) :
  coherent_at u s →
  body (reply (listTasks e u) s) = BList cached rows →
  rows = sql_select_tasks u (db_tasks s).
Proof.
  intros Hco. unfold_handlers. cbn.
  destruct (cache s !! u) as [entry|] eqn:Hentry; [case_bool_decide|]; cbn.
  - intros [= _ <-]. by apply Hco.
  - destruct (err1 e); cbn; [done|]. by intros [= _ <-].
  - destruct (err1 e); cbn; [done|]. by intros [= _ <-].
Qed.






(** The scenario of the specification: create, list (from the store), list
    again within 30 s (from the cache), mark done, list (from the store
    again, the task now [DONE]). *)
Example scenario_buy_milk :
  let s1 := after (createTask (H:=stable_engine) env0 alice (JString (js "buy milk"))) init in
  let s2 := after (listTasks (H:=stable_engine) env0 alice) s1 in
  let later := {| uuid := js "t9"; now := 1001 + 29000; now_put := 1001 + 29001;
                  db_now := 30; err1 := false; err2 := false; log_err := false |} in
  let s3 := after (listTasks (H:=stable_engine) later alice) s2 in
  let s4 := after (handle (H:=stable_engine) later mark_done) s3 in
  body (reply (listTasks (H:=stable_engine) env0 alice) s1) = BList false [view_of milk]
  ∧ body (reply (listTasks (H:=stable_engine) later alice) s2) = BList true [view_of milk]
  ∧ body (reply (listTasks (H:=stable_engine) later alice) s4)
    = BList false [view_of (set_status (js "DONE") 30 milk)]
  ∧ body (reply (listTasks (H:=stable_engine) later bob) s4) = BList false [].
Proof. vm_compute. done. Qed.

(** The entry expires once 30 s have passed since it was captured. *)
Example scenario_ttl :
  let s1 := after (listTasks (H:=stable_engine) env0 alice) (with_tasks [milk]) in
  let at_ (t : Z) := {| uuid := js "t9"; now := 1001 + t; now_put := 1001 + t;
                        db_now := 30; err1 := false; err2 := false; log_err := false |} in
  body (reply (listTasks (H:=stable_engine) (at_ 29000) alice) s1) = BList true [view_of milk]
  ∧ body (reply (listTasks (H:=stable_engine) (at_ 29999) alice) s1) = BList true [view_of milk]
  ∧ body (reply (listTasks (H:=stable_engine) (at_ 30000) alice) s1) = BList false [view_of milk]
  ∧ body (reply (listTasks (H:=stable_engine) (at_ 31000) alice) s1) = BList false [view_of milk]
  ∧ ts <$> (cache (after (listTasks (H:=stable_engine) (at_ 31000) alice) s1) !! alice)
    = Some (1001 + 31000).
Proof. vm_compute. done. Qed.

(** ** A listing in flight across a mutation *)

(** [listTasks] is its two halves with the query between them. *)
Lemma listTasks_cut `{Platform} (e : Env) (u : jstr) (s : State) :
  listTasks e u s = listTasks_in_one_go e u s.
Proof.
  unfold listTasks_in_one_go, listTasks_lookup, listTasks_query, listTasks_callback.
  unfold_handlers.
  destruct (cache s !! u) as [entry|]; [case_bool_decide|]; cbn; try done;
    destruct (err1 e); cbn; try done.
Qed.


(** ** The list query *)

Lemma insert_desc_perm (x : Task) (l : list Task) : insert_desc x l ≡ₚ x :: l.
Proof.
  induction l as [|y l IH]; cbn; [done|].
  case_bool_decide; [done|]. rewrite IH. apply Permutation_swap.
Qed.

Lemma stable_created_at_desc_perm (rows : list Task) :
  stable_created_at_desc rows ≡ₚ rows.
Proof.
  induction rows as [|x rows IH]; cbn; [done|].
  by rewrite insert_desc_perm, IH.
Qed.

Lemma insert_desc_sorted (x : Task) (l : list Task) :
  StronglySorted created_desc l → StronglySorted created_desc (insert_desc x l).
Proof.
  induction l as [|y l IH]; cbn.
  - intros _. by repeat constructor.
  - intros [Hl Hy]%StronglySorted_inv. case_bool_decide as Hle.
    + constructor; [by constructor|]. constructor; [done|].
      eapply Forall_impl; [exact Hy|]. unfold created_desc. intros z Hz. lia.
    + constructor; [by apply IH|].
      rewrite insert_desc_perm. constructor; [|done]. unfold created_desc. lia.
Qed.

Lemma stable_created_at_desc_sorted (rows : list Task) :
  StronglySorted created_desc (stable_created_at_desc rows).
Proof.
  induction rows as [|x rows IH]; cbn; [constructor|]. by apply insert_desc_sorted.
Qed.

#[global] Instance stable_engine_laws : OrderByLaws stable_engine.
Proof.
  split; cbn.
  - apply stable_created_at_desc_perm.
  - apply stable_created_at_desc_sorted.
Qed.

(** A miss followed by a query that succeeds: the reply and the new entry
    both hold the result of the query. *)
Lemma listTasks_miss_eq `{Platform} (e : Env) (u : jstr) (s : State) :
  (getCachedTasks (now e) u s).1.1 = None → err1 e = false →
  reply (listTasks e u) s
  = {| code := 200; body := BList false (sql_select_tasks u (db_tasks s)) |}
  ∧ cache (after (listTasks e u) s) !! u
    = Some {| ts := now_put e; tasks := sql_select_tasks u (db_tasks s) |}.
Proof.
  unfold_handlers. intros Hmiss Herr. rewrite Herr.
  destruct (cache s !! u) as [entry|]; [case_bool_decide; [done|]|]; cbn;
    (split; [done|]); destruct (log_err e); cbn; apply lookup_insert_eq.
Qed.

(** Whatever engine honours [ORDER BY created_at DESC]: the caller's rows,
    each once, none before a row with a later [created_at]. *)
Lemma listTasks_miss_sorted `{P : Platform} `{!OrderByLaws P} (e : Env) (u : jstr) (s : State) :
  (getCachedTasks (now e) u s).1.1 = None → err1 e = false →
  ∃ rows,
    rows ≡ₚ filter (owned_by u) (db_tasks s)
    ∧ StronglySorted created_desc rows
    ∧ reply (listTasks e u) s = {| code := 200; body := BList false (view_of <$> rows) |}
    ∧ cache (after (listTasks e u) s) !! u
      = Some {| ts := now_put e; tasks := view_of <$> rows |}.
Proof.
  intros Hmiss Herr.
  exists (order_by_created_at_desc (filter (owned_by u) (db_tasks s))).
  split_and!; [apply order_by_perm|apply order_by_sorted|..];
    by apply listTasks_miss_eq.
Qed.




#[global] Instance stable_engine_ties : TiesInTableOrder stable_engine.
Proof. by intros rows. Qed.

Lemma ties_in_table_order_laws (P : Platform) : TiesInTableOrder P → OrderByLaws P.
Proof.
  intros Hties. split; intros rows; rewrite (order_by_stable rows).
  - apply stable_created_at_desc_perm.
  - apply stable_created_at_desc_sorted.
Qed.



(** Two tasks created in the same second come out in the order they were
    inserted, a later one before both. *)
Example listTasks_same_second :
  let bread := {| task_id := js "t3"; task_user_id := alice; task_title := js "buy bread";
                  task_status := js "TODO"; task_created_at := 2; task_updated_at := 2 |} in
  body (reply (listTasks (H:=stable_engine) env0 alice) (with_tasks [milk; eggs; bread]))
  = BList false [view_of bread; view_of milk; view_of eggs].
Proof. vm_compute. done. Qed.

(** ** Replies of the mutations *)

(** What a successful [createTask] of [server.js] sends back. *)
Lemma createTask_reply `{Platform} (e : Env) (u : jstr) (title : jsval) (s : State) :
  code (reply (createTask e u title) s) = 200 →
  body (reply (createTask e u title) s) = BCreated (uuid e) u (str_of title) (js "TODO")
  ∧ body (reply (Pg.createTask e u title) s)
    = BCreatedRow (uuid e) u (trim (str_of title)) (js "TODO") (db_now e).
Proof. unfold_handlers; cbn. by case_route. Qed.

(** C7 — [createTask] success output, at [{ title: "buy milk" }] on an empty
    store: [server.js] replies [{ id, user_id, title, status }], with status
    [TODO] and no [created_at]; [server-pg.js] replies the inserted row,
    [created_at] included. *)
Theorem createTask_reply_lacks_created_at :
  let sqlite := reply (createTask (H:=stable_engine) env0 alice (JString (js "buy milk"))) init in
  let pg := reply (Pg.createTask (H:=stable_engine) env0 alice (JString (js "buy milk"))) init in
  sqlite = {| code := 200; body := BCreated (js "t1") alice (js "buy milk") (js "TODO") |}
  ∧ body_keys (body sqlite) = ["id"; "user_id"; "title"; "status"]%string
  ∧ ("created_at"%string ∉ body_keys (body sqlite))
  ∧ pg = {| code := 200; body := BCreatedRow (js "t1") alice (js "buy milk") (js "TODO") 1 |}
  ∧ ("created_at"%string ∈ body_keys (body pg)).
Proof.
  cbn zeta. split_and!; [reflexivity..| |reflexivity|].
  - apply (bool_decide_unpack _). vm_compute. exact I.
  - apply (bool_decide_unpack _). vm_compute. exact I.
Qed.

(** What a successful [editTitle] does. *)
Lemma editTitle_success `{Platform} (e : Env) (u t : jstr) (title : jsval) (s : State) :
  code (reply (editTitle e u t title) s) = 200 →
  body (reply (editTitle e u t title) s) = BTitle t (str_of title)
  ∧ is_Some (sql_select_owned t u (db_tasks s))
  ∧ db_tasks (after (editTitle e u t title) s)
    = (λ r, if bool_decide (task_id r = t)
            then set_title (trim (str_of title)) (db_now e) r else r) <$> db_tasks s
  ∧ cache (after (editTitle e u t title) s) !! u = None.
Proof.
  unfold_handlers; cbn. case_route; try done; intros _;
    (split_and!; [done|by eexists|done|apply lookup_delete_eq]).
Qed.

(** C10 — [editTitle] echoes the raw title: when the title sent starts or
    ends with whitespace and the edit succeeds, the reply carries the title
    as sent, the listing that follows is served from the store, shows the
    task, and shows it with the trimmed title, which is not the title of the
    reply. *)
Theorem editTitle_echoes_raw_title `{P : Platform} `{!OrderByLaws P}
    (e e' : Env) (u t title : jstr) (c : N) (s : State) :
  head title = Some c ∨ last title = Some c → is_js_whitespace c = true →
  code (reply (editTitle e u t (JString title)) s) = 200 →
  err1 e' = false →
  let s1 := after (editTitle e u t (JString title)) s in
  body (reply (editTitle e u t (JString title)) s) = BTitle t title
  ∧ ∃ rows,
      reply (listTasks e' u) s1 = {| code := 200; body := BList false rows |}
      ∧ (∃ v, v ∈ rows ∧ view_id v = t)
      ∧ ∀ v, v ∈ rows → view_id v = t →
             view_title v = trim title ∧ view_title v ≠ title.
Proof.
  intros Hws Hc Hok Herr s1.
  destruct (editTitle_success e u t (JString title) s Hok)
    as (Hbody & [x Howned] & Hdb & Hnone).
  split; [done|].
  assert ((getCachedTasks (now e') u s1).1.1 = None) as Hmiss.
  { unfold getCachedTasks. subst s1. by rewrite Hnone. }
  destruct (listTasks_miss_eq e' u s1 Hmiss Herr) as [Hreply _].
  eexists. split; [exact Hreply|]. unfold sql_select_tasks. subst s1. rewrite Hdb.
  cbn [str_of]. split.
  - apply sql_select_owned_Some in Howned as (_ & r & Hr & Hid & Hu).
    exists (view_of (set_title (trim title) (db_now e) r)). split; [|done].
    apply list_elem_of_fmap_2. rewrite order_by_perm.
    apply list_elem_of_filter. split; [done|].
    apply list_elem_of_fmap. exists r. by rewrite bool_decide_eq_true_2.
  - intros v (r' & -> & Hr')%list_elem_of_fmap Hid.
    rewrite order_by_perm in Hr'.
    apply list_elem_of_filter in Hr' as [_ (r & -> & Hr)%list_elem_of_fmap].
    cbn in Hid. case_bool_decide as Ht.
    + cbn. split; [done|]. by eapply trim_changes.
    + done.
Qed.

Lemma editTitle_echoes_raw_title_witness :
  let raw := js " buy oat milk " in
  let s1 := after (editTitle (H:=stable_engine) env0 alice (js "t1") (JString raw))
              (with_tasks [milk]) in
  body (reply (editTitle (H:=stable_engine) env0 alice (js "t1") (JString raw))
          (with_tasks [milk])) = BTitle (js "t1") raw
  ∧ ∃ rows,
      reply (listTasks (H:=stable_engine) env0 alice) s1
      = {| code := 200; body := BList false rows |}
      ∧ (∃ v, v ∈ rows ∧ view_id v = js "t1")
      ∧ ∀ v, v ∈ rows → view_id v = js "t1" →
             view_title v = trim raw ∧ view_title v ≠ raw.
Proof.
  apply (editTitle_echoes_raw_title (P:=stable_engine) env0 env0 alice (js "t1")
           (js " buy oat milk ") 32%N (with_tasks [milk])).
  - left. reflexivity.
  - reflexivity.
  - reflexivity.
  - reflexivity.
Defined.

(** The stored title after the edit of the witness. *)
Example editTitle_stores_trimmed :
  task_title <$> db_tasks (after (editTitle (H:=stable_engine) env0 alice (js "t1")
                                    (JString (js " buy oat milk "))) (with_tasks [milk]))
  = [js "buy oat milk"].
Proof. reflexivity. Qed.

(** ** The audit log *)

(** Whether the INSERT into [logs] fails or not, a request gets the same
    reply, takes the same steps and leaves the same store, cache and
    counters. *)
Lemma handle_log_err `{Platform} (b : bool) (e : Env) (r : Request) (s : State) :
  reply (handle (with_log_err b e) r) s = reply (handle e r) s
  ∧ steps (handle (with_log_err b e) r) s = steps (handle e r) s
  ∧ db_tasks (after (handle (with_log_err b e) r) s) = db_tasks (after (handle e r) s)
  ∧ cache (after (handle (with_log_err b e) r) s) = cache (after (handle e r) s)
  ∧ cacheHits (after (handle (with_log_err b e) r) s) = cacheHits (after (handle e r) s)
  ∧ cacheMisses (after (handle (with_log_err b e) r) s) = cacheMisses (after (handle e r) s).
Proof.
  destruct r as [u title|u|u t status|u t title|u t];
    unfold_handlers; cbn; case_route; done.
Qed.

(** C8 — Audit is best-effort: when [JSON.stringify] throws on the body,
    [safeJsonString] gives [null], and [persistLog] completes and writes the
    row with a NULL body; when the INSERT into [logs] fails, [persistLog]
    completes and changes nothing; and for every request the reply, the
    steps, the store, the cache and the counters are the same whether that
    INSERT fails or not. *)
Theorem audit_best_effort `{Platform} (e : Env) (method path u : jstr)
    (payload : jsval) (s : State) (b : bool) (r : Request) :
  JSON_stringify payload = Throw →
  safeJsonString payload = None
  ∧ persistLog (with_log_err false e) method path u payload s
    = (tt,
       set_db_logs (db_logs s ++
         [{| log_method := method; log_path := path; log_user_id := or_null u;
             log_body := None; log_created_at := db_now e |}]) s,
       [EvAudit method path])
  ∧ persistLog (with_log_err true e) method path u payload s
    = (tt, s, [EvAudit method path])
  ∧ reply (handle (with_log_err b e) r) s = reply (handle e r) s
  ∧ steps (handle (with_log_err b e) r) s = steps (handle e r) s
  ∧ db_tasks (after (handle (with_log_err b e) r) s) = db_tasks (after (handle e r) s)
  ∧ cache (after (handle (with_log_err b e) r) s) = cache (after (handle e r) s).
Proof.
  intros Hthrow.
  assert (safeJsonString payload = None) as Hnull.
  { unfold safeJsonString. by rewrite Hthrow. }
  destruct (handle_log_err b e r s) as (? & ? & ? & ? & _).
  split_and!; try done; unfold_handlers; cbn; by rewrite Hnull.
Qed.

Lemma audit_best_effort_witness :
  safeJsonString (H:=stable_engine) (JObject [(js "n", JBigInt 1)]) = None
  ∧ persistLog (H:=stable_engine) (with_log_err false env0) (js "POST") (js "/api/tasks")
      alice (JObject [(js "n", JBigInt 1)]) (with_tasks [milk])
    = (tt,
       set_db_logs (db_logs (with_tasks [milk]) ++
         [{| log_method := js "POST"; log_path := js "/api/tasks";
             log_user_id := or_null alice; log_body := None;
             log_created_at := db_now env0 |}]) (with_tasks [milk]),
       [EvAudit (js "POST") (js "/api/tasks")])
  ∧ persistLog (H:=stable_engine) (with_log_err true env0) (js "POST") (js "/api/tasks")
      alice (JObject [(js "n", JBigInt 1)]) (with_tasks [milk])
    = (tt, with_tasks [milk], [EvAudit (js "POST") (js "/api/tasks")])
  ∧ reply (handle (H:=stable_engine) (with_log_err true env0) mark_done) (with_tasks [milk])
    = reply (handle (H:=stable_engine) env0 mark_done) (with_tasks [milk])
  ∧ steps (handle (H:=stable_engine) (with_log_err true env0) mark_done) (with_tasks [milk])
    = steps (handle (H:=stable_engine) env0 mark_done) (with_tasks [milk])
  ∧ db_tasks (after (handle (H:=stable_engine) (with_log_err true env0) mark_done) (with_tasks [milk]))
    = db_tasks (after (handle (H:=stable_engine) env0 mark_done) (with_tasks [milk]))
  ∧ cache (after (handle (H:=stable_engine) (with_log_err true env0) mark_done) (with_tasks [milk]))
    = cache (after (handle (H:=stable_engine) env0 mark_done) (with_tasks [milk])).
Proof.
  apply (audit_best_effort (H:=stable_engine) env0 (js "POST") (js "/api/tasks") alice
           (JObject [(js "n", JBigInt 1)]) (with_tasks [milk]) true mark_done).
  reflexivity.
Defined.

(** The bodies the routes pass to [persistLog] are serialized as they are. *)
Example safeJsonString_title :
  safeJsonString (H:=stable_engine) (JObject [(js "title", JString (js "buy milk"))])
  = Some (js "{" ++ quote (js "title") ++ js ":" ++ quote (js "buy milk") ++ js "}").
Proof. reflexivity. Qed.


(** * Further properties of [backend/server.js] *)

(** ** [validateEmail] *)

Lemma plus_rests_spec (p : N → bool) (s r : jstr) :
  r ∈ plus_rests p s ↔
  ∃ pre, pre ≠ [] ∧ s = pre ++ r ∧ Forall (λ c, p c = true) pre.
Proof.
  revert r. induction s as [|c s IH]; intros r; cbn.
  - split; [by intros ?%elem_of_nil|].
    intros (pre & Hne & Hs & _). by destruct pre.
  - destruct (p c) eqn:Hc.
    + rewrite elem_of_cons, IH. split.
      * intros [->|(pre & Hne & -> & Hall)].
        -- exists [c]. by repeat constructor.
        -- exists (c :: pre). split_and!; [done|done|by constructor].
      * intros ([|c' pre] & Hne & Hs & Hall); [done|].
        injection Hs as <- ->. apply Forall_cons in Hall as [_ Hall].
        destruct pre as [|c'' pre]; [by left|]. right.
        by exists (c'' :: pre).
    + split; [by intros ?%elem_of_nil|].
      intros ([|c' pre] & Hne & Hs & Hall); [done|].
      injection Hs as <- ->. apply Forall_cons in Hall as [Hc' _]. congruence.
Qed.

Lemma char_rests_spec (c : N) (s r : jstr) :
  r ∈ regex_rests (RChar c) s ↔ s = c :: r.
Proof.
  cbn. destruct s as [|d s]; [by split; [intros ?%elem_of_nil|]|].
  destruct (N.eqb_spec d c) as [->|Hne].
  - rewrite list_elem_of_singleton. split; [by intros ->|by intros [= ->]].
  - split; [by intros ?%elem_of_nil|]. intros [= -> _]. done.
Qed.

Lemma seq_rests_spec (r1 r2 : regex) (s r : jstr) :
  r ∈ regex_rests (RSeq r1 r2) s ↔
  ∃ m, m ∈ regex_rests r1 s ∧ r ∈ regex_rests r2 m.
Proof.
  cbn. rewrite list_elem_of_bind. split; intros (m & H1 & H2); by exists m.
Qed.

(** X1 — [validateEmail] accepts exactly the strings [a @ b . c] whose
    three parts are non-empty and hold neither whitespace nor [@]. *)
Theorem validateEmail_spec (e : jsval) :
  validateEmail e = true ↔
  ∃ a b c,
    e = JString (a ++ 64%N :: b ++ 46%N :: c)
    ∧ a ≠ [] ∧ b ≠ [] ∧ c ≠ []
    ∧ Forall (λ x, not_space_or_at x = true) (a ++ b ++ c).
Proof.
  unfold validateEmail, regex_test, EMAIL_RE.
  rewrite andb_true_iff, bool_decide_eq_true. split.
  - intros [Hty Hm]. destruct e as [| | | | |s| |]; try done. cbn [str_of] in Hm.
    apply seq_rests_spec in Hm as (m1 & (a & Ha & -> & Hoka)%plus_rests_spec & Hm).
    apply seq_rests_spec in Hm as (m2 & ->%char_rests_spec & Hm).
    apply seq_rests_spec in Hm as (m3 & (b & Hb & -> & Hokb)%plus_rests_spec & Hm).
    apply seq_rests_spec in Hm as (m4 & ->%char_rests_spec & Hm).
    apply plus_rests_spec in Hm as (c & Hc & -> & Hokc).
    exists a, b, c. rewrite app_nil_r. split_and!; try done.
    by rewrite !Forall_app.
  - intros (a & b & c & -> & Ha & Hb & Hc & Hok).
    rewrite !Forall_app in Hok. destruct Hok as (Hoka & Hokb & Hokc).
    split; [done|]. cbn [str_of].
    apply seq_rests_spec. exists (64%N :: b ++ 46%N :: c).
    split; [apply plus_rests_spec; by exists a|].
    apply seq_rests_spec. exists (b ++ 46%N :: c).
    split; [by apply char_rests_spec|].
    apply seq_rests_spec. exists (46%N :: c).
    split; [apply plus_rests_spec; by exists b|].
    apply seq_rests_spec. exists c.
    split; [by apply char_rests_spec|].
    apply plus_rests_spec. exists c. by rewrite app_nil_r.
Qed.

(** ** [authMiddleware] *)

Lemma split_nonempty (sep : N) (s : jstr) : split sep s ≠ [].
Proof.
  destruct s as [|c s]; cbn; [done|].
  destruct (c =? sep)%N; [done|]. by destruct (split sep s).
Qed.

Lemma join_cons (sep p : jstr) (ps : list jstr) :
  ps ≠ [] → join sep (p :: ps) = p ++ sep ++ join sep ps.
Proof. by destruct ps. Qed.

Lemma split_join (sep : N) (s : jstr) : join [sep] (split sep s) = s.
Proof.
  induction s as [|c s IH]; [done|]. cbn [split].
  pose proof (split_nonempty sep s) as Hne.
  destruct (N.eqb_spec c sep) as [->|Hc].
  - by rewrite join_cons, IH.
  - destruct (split sep s) as [|p ps]; [done|]. rewrite <- IH.
    destruct ps as [|p' ps]; [reflexivity|].
    rewrite (join_cons _ (c :: p)), (join_cons _ p) by done. reflexivity.
Qed.

Lemma split_parts (sep : N) (s : jstr) : Forall (λ p, sep ∉ p) (split sep s).
Proof.
  induction s as [|c s IH]; cbn.
  - constructor; [apply not_elem_of_nil|constructor].
  - destruct (N.eqb_spec c sep) as [->|Hc]; cbn iota.
    + constructor; [apply not_elem_of_nil|exact IH].
    + pose proof (split_nonempty sep s) as Hne.
      destruct (split sep s) as [|p ps]; [done|].
      apply Forall_cons in IH as [Hp Hps]. constructor; [|done].
      rewrite not_elem_of_cons. split; [congruence|done].
Qed.

Lemma split_app (sep : N) (a rest : jstr) :
  sep ∉ a → split sep (a ++ sep :: rest) = a :: split sep rest.
Proof.
  induction a as [|c a IH]; cbn.
  - intros _. by rewrite N.eqb_refl.
  - intros [Hc Ha]%not_elem_of_cons.
    destruct (N.eqb_spec c sep) as [->|_]; [done|]. by rewrite IH.
Qed.

Lemma split_none (sep : N) (a : jstr) : sep ∉ a → split sep a = [a].
Proof.
  induction a as [|c a IH]; cbn; [done|].
  intros [Hc Ha]%not_elem_of_cons.
  destruct (N.eqb_spec c sep) as [->|_]; [done|]. by rewrite IH.
Qed.

Lemma bearer_split (token : jstr) :
  32%N ∉ token → split 32 (bearer token) = [js "Bearer"; token].
Proof.
  intros Hns. unfold bearer.
  rewrite split_app, (split_none 32 _ Hns); [done|].
  intros Hin. by apply (bool_decide_pack _) in Hin.
Qed.

Lemma authMiddleware_accepts `{Crypto} (clock : Z) (authorization : option jstr)
    (p : Payload) :
  authMiddleware clock authorization = inr p ↔
  ∃ token, authorization = Some (bearer token) ∧ (32%N ∉ token)
           ∧ jwt_verify clock token = Some p.
Proof.
  unfold authMiddleware. split.
  - destruct authorization as [[|c auth]|]; [done| |done].
    pose proof (split_join 32 (c :: auth)) as Hjoin.
    pose proof (split_parts 32 (c :: auth)) as Hparts.
    destruct (split 32 (c :: auth)) as [|p0 [|p1 [|p2 ps]]]; try done.
    rewrite (bool_decide_eq_true_2 (length [p0; p1] = 2%nat)) by done.
    case_bool_decide as Hb; [|done]. cbn. cbn in Hb. injection Hb as ->.
    destruct (jwt_verify clock p1) as [q|] eqn:Hv; [|done]. intros [= ->].
    exists p1. rewrite <- Hjoin. split_and!; [done| |done].
    by apply Forall_cons in Hparts as [_ [? _]%Forall_cons].
  - intros (token & -> & Hns & Hv).
    assert (∃ c auth, bearer token = c :: auth) as (c & auth & Heq) by by eexists _, _.
    rewrite Heq, <- Heq, (bearer_split _ Hns). cbn.
    rewrite bool_decide_eq_true_2 by done. cbn. by rewrite Hv.
Qed.

Lemma authMiddleware_rejects `{Crypto} (clock : Z) (authorization : option jstr)
    (r : Response) :
  authMiddleware clock authorization = inl r →
  code r = 401 ∧ ∃ msg, body r = BError msg.
Proof.
  unfold authMiddleware. intros Hr.
  repeat case_match; simplify_eq; cbn; eauto.
Qed.

(** X2 — [authMiddleware] calls [next] exactly for a header made of
    [Bearer], one space and a token without space that [jwt.verify] accepts,
    and then [req.user] is the payload of that token; every other header, or
    none, is answered 401. *)
Theorem authMiddleware_spec `{Crypto} (clock : Z) (authorization : option jstr) :
  (∀ p, authMiddleware clock authorization = inr p ↔
        ∃ token, authorization = Some (js "Bearer" ++ 32%N :: token)
                 ∧ (32%N ∉ token) ∧ jwt_verify clock token = Some p)
  ∧ (∀ r, authMiddleware clock authorization = inl r →
          code r = 401 ∧ ∃ msg, body r = BError msg).
Proof.
  split.
  - intros p. apply authMiddleware_accepts.
  - apply authMiddleware_rejects.
Qed.

(** Headers that do not get through, and one that does. *)
Example authMiddleware_examples :
  authMiddleware (H:=toy_crypto) 150 None = inl (unauthorized "Missing auth token")
  ∧ authMiddleware (H:=toy_crypto) 150 (Some []) = inl (unauthorized "Missing auth token")
  ∧ authMiddleware (H:=toy_crypto) 150 (Some (js "Bearer")) = inl (unauthorized "Invalid auth format")
  ∧ authMiddleware (H:=toy_crypto) 150 (Some (js "bearer x")) = inl (unauthorized "Invalid auth format")
  ∧ authMiddleware (H:=toy_crypto) 150 (Some (js "Bearer  x")) = inl (unauthorized "Invalid auth format")
  ∧ authMiddleware (H:=toy_crypto) 150 (Some (js "Bearer ")) = inl (unauthorized "Invalid/expired token")
  ∧ authMiddleware (H:=toy_crypto) 150
      (Some (bearer (toy_sign 100 {| payload_id := alice; payload_email := js "a@b.c" |})))
    = inr {| payload_id := alice; payload_email := js "a@b.c" |}
  ∧ authMiddleware (H:=toy_crypto) (100 + 7 * 24 * 3600)
      (Some (bearer (toy_sign 100 {| payload_id := alice; payload_email := js "a@b.c" |})))
    = inl (unauthorized "Invalid/expired token").
Proof. vm_compute. done. Qed.

(** X3 — Every task route sits behind [authMiddleware]: without a header
    that gets through, the call is answered 401, that reply is its only
    step and the state is untouched; with one, the call is handled for the
    [id] of the token's payload and for nobody else. *)
Theorem serve_authenticated `{Platform} `{Crypto} (e : Env) (clock : Z)
    (authorization : option jstr) (c : Call) (s : State) :
  ((¬ ∃ token p, authorization = Some (js "Bearer" ++ 32%N :: token)
                 ∧ (32%N ∉ token) ∧ jwt_verify clock token = Some p) →
   ∃ msg, serve e clock authorization c s
          = ({| code := 401; body := BError msg |}, s, [EvRespond 401]))
  ∧ (∀ token p, authorization = Some (js "Bearer" ++ 32%N :: token) →
       (32%N ∉ token) → jwt_verify clock token = Some p →
       serve e clock authorization c s = handle e (request_of (payload_id p) c) s
       ∧ req_user (request_of (payload_id p) c) = payload_id p).
Proof.
  unfold serve, protected. split.
  - intros Hno. destruct (authMiddleware clock authorization) as [r|p] eqn:Hauth.
    + destruct (authMiddleware_rejects _ _ _ Hauth) as (Hcode & msg & Hbody).
      exists msg. destruct r as [rc rb]. cbn in *. subst. reflexivity.
    + destruct Hno. apply authMiddleware_accepts in Hauth as (token & ? & ? & ?).
      by exists token, p.
  - intros token p Hauth Hns Hv.
    assert (authMiddleware clock authorization = inr p) as ->.
    { apply authMiddleware_accepts. by exists token. }
    split; [done|]. by destruct c.
Qed.

(** ** Accounts: [signup] and [login] *)

Arguments validateEmail : simpl never.
Arguments validatePassword : simpl never.
Arguments authMiddleware : simpl never.

Lemma sql_select_user_new (email id hash : jstr) (t : Z) (rows rows' : list Account) :
  sql_insert_user id email hash t rows = Some rows' →
  rows' = rows ++ [{| account_id := id; account_email := email;
                      account_password_hash := hash; account_created_at := t |}]
  ∧ sql_select_user email rows'
    = Some {| account_id := id; account_email := email;
              account_password_hash := hash; account_created_at := t |}.
Proof.
  unfold sql_insert_user, sql_select_user. case_bool_decide as Hfresh; [done|].
  intros [= <-]. split; [done|].
  rewrite filter_app, filter_none.
  - cbn. by rewrite decide_True.
  - intros r Hr Hemail. destruct Hfresh. right. rewrite <- Hemail.
    by apply list_elem_of_fmap_2.
Qed.

Lemma sql_insert_user_taken (id email hash : jstr) (t : Z) (rows : list Account) :
  email ∈ account_email <$> rows → sql_insert_user id email hash t rows = None.
Proof.
  intros Hin. unfold sql_insert_user. rewrite bool_decide_eq_true_2; [done|]. by right.
Qed.

Lemma signup_success `{Crypto} (e : AuthEnv) (email password : jsval)
    (users users' : list Account) (token id em : jstr) :
  signup e email password users = (AuthSession token id em, users') →
  validateEmail email = true ∧ validatePassword password = true
  ∧ id = auth_uuid e ∧ em = str_of email
  ∧ token = jwt_sign (auth_clock e) {| payload_id := id; payload_email := em |}
  ∧ sql_insert_user id (toLowerCase (str_of email))
      (bcrypt_hash (auth_salt e) (str_of password)) (auth_db_now e) users = Some users'.
Proof.
  unfold signup.
  destruct (validateEmail email), (validatePassword password); try done. cbn.
  destruct (auth_db_err e); [done|].
  destruct (sql_insert_user _ _ _ _ _) as [rows|] eqn:Hins; [|done].
  by intros [= <- <- <- <-].
Qed.

(** X4 — One account per address, whatever the letter case: once a signup
    has succeeded, a well-formed signup whose email has the same lower-case
    form is answered 400 [Email already in use] and adds nothing, however
    many accounts were created in between. *)
Theorem signup_email_in_use `{Crypto} (e1 e2 : AuthEnv) (email1 pw1 email2 pw2 : jsval)
    (users users1 later : list Account) (token id em : jstr) :
  signup e1 email1 pw1 users = (AuthSession token id em, users1) →
  toLowerCase (str_of email2) = toLowerCase (str_of email1) →
  validateEmail email2 = true → validatePassword pw2 = true →
  auth_db_err e2 = false →
  signup e2 email2 pw2 (users1 ++ later)
  = (AuthError 400 (js "Email already in use"), users1 ++ later).
Proof.
  intros (_ & _ & _ & _ & _ & Hins)%signup_success Hlower Hv1 Hv2 Herr.
  apply sql_select_user_new in Hins as [-> _].
  unfold signup. rewrite Hv1, Hv2, Herr. cbn.
  rewrite sql_insert_user_taken; [done|].
  rewrite Hlower, !fmap_app. cbn. set_solver.
Qed.

Lemma signup_email_in_use_witness :
  signup (H:=toy_crypto) auth1 ann_lower secret
    ((signup (H:=toy_crypto) auth0 ann secret []).2 ++ [])
  = (AuthError 400 (js "Email already in use"),
     (signup (H:=toy_crypto) auth0 ann secret []).2 ++ []).
Proof.
  eapply (signup_email_in_use (H:=toy_crypto) auth0 auth1 ann secret ann_lower secret []);
    reflexivity.
Defined.

#[global] Instance toy_crypto_laws : CryptoLaws toy_crypto.
Proof.
  split.
  - intros t now [pid pem] Ht Hnow.
    cbn [jwt_sign jwt_verify toy_crypto]. unfold toy_verify, toy_sign.
    rewrite <- list_fmap_compose.
    erewrite (list_fmap_ext _ id); [|intros i x _; cbn; apply N.add_sub].
    rewrite list_fmap_id. cbn [payload_id payload_email].
    rewrite Z2N.id by lia. rewrite bool_decide_eq_true_2 by lia.
    rewrite Nat2N.id. f_equal. f_equal.
    + by rewrite take_app_length.
    + by rewrite drop_app_length.
  - intros t p Hin. cbn [jwt_sign toy_crypto] in Hin. unfold toy_sign in Hin.
    apply list_elem_of_fmap in Hin as (x & Hx & _). lia.
  - intros salt pw. cbn [bcrypt_hash bcrypt_compare toy_crypto].
    rewrite Nat2N.id, drop_app_length. by rewrite bool_decide_eq_true_2.
Qed.

(** X5 — Signing up, logging in, calling: after a successful signup, a
    login with the same password and an email of the same lower-case form
    succeeds and names the account created; the token it returns, sent as
    [Bearer token] within seven days, makes [authMiddleware] pass the id of
    that account on to the route. *)
Theorem signup_login_authenticate `{C : Crypto} `{!CryptoLaws C}
    (e1 e2 : AuthEnv) (email1 email2 password : jsval)
    (users users1 : list Account) (token1 id em : jstr) (clock : Z) :
  signup e1 email1 password users = (AuthSession token1 id em, users1) →
  toLowerCase (str_of email2) = toLowerCase (str_of email1) →
  validateEmail email2 = true →
  auth_db_err e2 = false →
  0 ≤ auth_clock e2 ≤ clock → clock < auth_clock e2 + 7 * 24 * 3600 →
  ∃ token2,
    login e2 email2 password users1 = AuthSession token2 id (str_of email2)
    ∧ authMiddleware clock (Some (bearer token2))
      = inr {| payload_id := id; payload_email := str_of email2 |}.
Proof.
  intros (_ & Hpw & -> & _ & _ & Hins)%signup_success Hlower Hv Herr Hclock Hexp.
  apply sql_select_user_new in Hins as [_ Hsel].
  eexists. unfold login. rewrite Hv, Hpw, Herr, Hlower, Hsel. cbn.
  rewrite bcrypt_compare_hash. cbn. split; [done|].
  apply authMiddleware_accepts. eexists. split_and!; [done| |].
  - apply jwt_sign_no_space.
  - by apply jwt_verify_sign.
Qed.

Lemma signup_login_authenticate_witness :
  ∃ token2,
    login (H:=toy_crypto) auth1 ann_lower secret (signup (H:=toy_crypto) auth0 ann secret []).2
    = AuthSession token2 (js "u1") (str_of ann_lower)
    ∧ authMiddleware (H:=toy_crypto) 300 (Some (bearer token2))
      = inr {| payload_id := js "u1"; payload_email := str_of ann_lower |}.
Proof.
  eapply (signup_login_authenticate (C:=toy_crypto) auth0 auth1 ann ann_lower secret []);
    [reflexivity|reflexivity|reflexivity|reflexivity|cbn; lia|cbn; lia].
Defined.

(** X6 — [login] tells nothing apart: for a well-formed email and
    password, an address without account and a password that does not match
    the account's hash get the same reply, 400 [Invalid credentials]; the
    only other outcomes are a session for the account of that address, when
    the password matches, and 500 when the query fails. *)
Theorem login_outcomes `{Crypto} (e : AuthEnv) (email password : jsval)
    (users : list Account) :
  validateEmail email = true → validatePassword password = true →
  let found := sql_select_user (toLowerCase (str_of email)) users in
  let matches row := bcrypt_compare (str_of password) (account_password_hash row) in
  (auth_db_err e = true → login e email password users = AuthError 500 (js "DB error"))
  ∧ (auth_db_err e = false →
     (found = None ∨ (∃ row, found = Some row ∧ matches row = false) →
      login e email password users = AuthError 400 (js "Invalid credentials"))
     ∧ (∀ row, found = Some row → matches row = true →
        row ∈ users ∧ account_email row = toLowerCase (str_of email)
        ∧ login e email password users
          = AuthSession (jwt_sign (auth_clock e)
                           {| payload_id := account_id row;
                              payload_email := str_of email |})
              (account_id row) (str_of email))).
Proof.
  intros Hv1 Hv2 found matches. subst found matches. unfold login.
  rewrite Hv1, Hv2. cbn. split; [by intros ->|]. intros ->. split.
  - intros [->|(row & -> & Hno)]; [done|]. cbn. by rewrite Hno.
  - intros row Hsel Hyes. rewrite Hsel. cbn. rewrite Hyes. cbn.
    unfold sql_select_user in Hsel.
    apply head_Some_elem_of, list_elem_of_filter in Hsel as [? ?]. done.
Qed.

Lemma login_outcomes_witness :
  login (H:=toy_crypto) auth1 ann (JString (js "wrong-password"))
    (signup (H:=toy_crypto) auth0 ann secret []).2
  = AuthError 400 (js "Invalid credentials")
  ∧ login (H:=toy_crypto) auth1 (JString (js "bob@example.org")) secret
      (signup (H:=toy_crypto) auth0 ann secret []).2
    = AuthError 400 (js "Invalid credentials").
Proof.
  split.
  - eapply (login_outcomes (H:=toy_crypto) auth1 ann (JString (js "wrong-password")));
      [reflexivity|reflexivity|reflexivity|].
    right. eexists. split; reflexivity.
  - eapply (login_outcomes (H:=toy_crypto) auth1 (JString (js "bob@example.org")) secret);
      [reflexivity|reflexivity|reflexivity|].
    left. reflexivity.
Defined.

(** ** What each task route does to the store *)

Arguments trim : simpl never.

Lemma handle_failure `{Platform} (e : Env) (r : Request) (s : State) :
  code (reply (handle e r) s) ≠ 200 →
  after (handle e r) s = if is_mutation r then s else count_miss s.
Proof.
  destruct r as [u title|u|u t status|u t title|u t];
    unfold_handlers; cbn; case_route; try done; intros _.
  match goal with
  | Hdel : sql_delete_task _ _ _ = Some _ |- _ =>
      apply delete_change in Hdel as [_ Hsame]; rewrite Hsame by done
  end.
  apply set_db_tasks_same.
Qed.

(** X7 — No partial effect: a task request that is not answered 200
    (refused input, task not found, store error at any statement) leaves
    store, cache and log exactly as they were; the only trace is the miss a
    failed listing has counted. *)
Theorem failed_request_changes_nothing `{Platform} (e : Env) (r : Request) (s : State) :
  code (reply (handle e r) s) ≠ 200 →
  db_tasks (after (handle e r) s) = db_tasks s
  ∧ db_logs (after (handle e r) s) = db_logs s
  ∧ cache (after (handle e r) s) = cache s
  ∧ cacheHits (after (handle e r) s) = cacheHits s
  ∧ (is_mutation r = true → after (handle e r) s = s).
Proof.
  intros Hfail. rewrite (handle_failure e r s Hfail).
  by destruct (is_mutation r).
Qed.

Lemma failed_request_changes_nothing_witness :
  let r := UpdateStatus alice (js "t1") (JString (js "DONE")) in
  let s := with_tasks [milk] in
  code (reply (handle (H:=stable_engine) failing r) s) = 500
  ∧ db_tasks (after (handle (H:=stable_engine) failing r) s) = db_tasks s
  ∧ db_logs (after (handle (H:=stable_engine) failing r) s) = db_logs s
  ∧ cache (after (handle (H:=stable_engine) failing r) s) = cache s
  ∧ cacheHits (after (handle (H:=stable_engine) failing r) s) = cacheHits s
  ∧ (is_mutation r = true → after (handle (H:=stable_engine) failing r) s = s).
Proof.
  split; [reflexivity|].
  apply (failed_request_changes_nothing (H:=stable_engine) failing
           (UpdateStatus alice (js "t1") (JString (js "DONE"))) (with_tasks [milk])).
  discriminate.
Defined.

Lemma createTask_success `{Platform} (e : Env) (u : jstr) (title : jsval) (s : State) :
  code (reply (createTask e u title) s) = 200 →
  ∃ t, title = JString t ∧ trim t ≠ []
       ∧ (uuid e ∉ task_id <$> db_tasks s)
       ∧ db_tasks (after (createTask e u title) s)
         = db_tasks s ++ [{| task_id := uuid e; task_user_id := u;
                             task_title := trim t; task_status := js "TODO";
                             task_created_at := db_now e;
                             task_updated_at := db_now e |}]
       ∧ cache (after (createTask e u title) s) = delete u (cache s).
Proof.
  unfold_handlers; cbn.
  destruct title as [| | | | |t| |]; cbn; rewrite ?orb_true_r; cbn; try done.
  destruct t as [|c t]; cbn; [done|].
  case_bool_decide as Hempty; cbn; [done|].
  destruct (err1 e); cbn; [done|].
  unfold sql_insert_task. case_bool_decide as Hfresh; cbn; [done|].
  intros _. exists (c :: t). split_and!; try done.
  - intros Hnil. by rewrite Hnil in Hempty.
  - by destruct (log_err e).
  - by destruct (log_err e).
Qed.

Lemma updateStatus_success `{Platform} (e : Env) (u t : jstr) (status : jsval) (s : State) :
  code (reply (updateStatus e u t status) s) = 200 →
  ∃ st, status = JString st ∧ st ∈ valid_statuses
        ∧ is_Some (sql_select_owned t u (db_tasks s))
        ∧ reply (updateStatus e u t status) s = {| code := 200; body := BStatus t st |}
        ∧ db_tasks (after (updateStatus e u t status) s)
          = (λ r, if bool_decide (task_id r = t)
                  then set_status st (db_now e) r else r) <$> db_tasks s
        ∧ cache (after (updateStatus e u t status) s) = delete u (cache s).
Proof.
  unfold_handlers; cbn. destruct status as [| | | | |st| |]; cbn; try done.
  case_bool_decide as Hvalid; cbn; [|done].
  case_route; try done; intros _;
    (exists st; split_and!; [done|done|by eexists|done..]).
Qed.

Lemma deleteTask_success `{Platform} (e : Env) (u t : jstr) (s : State) :
  code (reply (deleteTask e u t) s) = 200 →
  (∃ r, r ∈ db_tasks s ∧ task_id r = t ∧ task_user_id r = u)
  ∧ db_tasks (after (deleteTask e u t) s)
    = filter (λ r, ¬ (task_id r = t ∧ task_user_id r = u)) (db_tasks s)
  ∧ cache (after (deleteTask e u t) s) = delete u (cache s).
Proof.
  unfold_handlers; cbn. destruct (err1 e); cbn; [done|].
  unfold sql_delete_task.
  destruct (filter (λ r, task_id r = t ∧ task_user_id r = u) (db_tasks s))
    as [|r l] eqn:Hf; cbn; [done|].
  intros _. split_and!.
  - exists r.
    assert (r ∈ filter (λ r, task_id r = t ∧ task_user_id r = u) (db_tasks s))
      as [[? ?] ?]%list_elem_of_filter by (rewrite Hf; left). done.
  - by destruct (log_err e).
  - by destruct (log_err e).
Qed.

(** ** Stored titles and statuses *)

Lemma trimStart_suffix (s : jstr) : ∃ pre, s = pre ++ trimStart s.
Proof.
  induction s as [|c s [pre IH]]; [by exists []|]. cbn.
  destruct (is_js_whitespace c); [|by exists []].
  exists (c :: pre). cbn. by rewrite <- IH.
Qed.

Lemma trimStart_head (s : jstr) (c : N) :
  head (trimStart s) = Some c → is_js_whitespace c = false.
Proof.
  induction s as [|d s IH]; cbn; [done|].
  destruct (is_js_whitespace d) eqn:Hd; [done|]. cbn. by intros [= <-].
Qed.

Lemma trimStart_id (s : jstr) :
  (∀ c, head s = Some c → is_js_whitespace c = false) → trimStart s = s.
Proof.
  destruct s as [|c s]; [done|]. intros Hhead. cbn. by rewrite (Hhead c).
Qed.

(** [trim] leaves a trimmed string as it is. *)
Lemma trim_idempotent (s : jstr) : trim (trim s) = trim s.
Proof.
  unfold trim at 2. unfold trimEnd.
  set (y := trimStart s). set (z := trimStart (rev y)).
  assert (trimStart (rev z) = rev z) as Hstart.
  { apply trimStart_id. intros c Hc.
    destruct (trimStart_suffix (rev y)) as [pre Hpre]. fold z in Hpre.
    apply (f_equal (λ l, rev l)) in Hpre. cbn beta in Hpre. rewrite rev_involutive, rev_app_distr in Hpre.
    apply (trimStart_head s). fold y. rewrite Hpre.
    destruct (rev z); [done|]. exact Hc. }
  unfold trim, trimEnd. rewrite Hstart, rev_involutive. f_equal.
  apply trimStart_id. intros c. apply trimStart_head.
Qed.

Lemma handle_rows `{Platform} (e : Env) (r : Request) (s : State) :
  let rows' := db_tasks (after (handle e r) s) in
  rows' = db_tasks s
  ∨ (∃ t, trim t ≠ [] ∧ (uuid e ∉ task_id <$> db_tasks s)
          ∧ r = CreateTask (req_user r) (JString t)
          ∧ rows' = db_tasks s ++ [{| task_id := uuid e; task_user_id := req_user r;
                                      task_title := trim t; task_status := js "TODO";
                                      task_created_at := db_now e;
                                      task_updated_at := db_now e |}])
  ∨ (∃ id st, st ∈ valid_statuses
              ∧ r = UpdateStatus (req_user r) id (JString st)
              ∧ is_Some (sql_select_owned id (req_user r) (db_tasks s))
              ∧ rows' = (λ x, if bool_decide (task_id x = id)
                              then set_status st (db_now e) x else x) <$> db_tasks s)
  ∨ (∃ id t, r = EditTitle (req_user r) id (JString t)
             ∧ is_Some (sql_select_owned id (req_user r) (db_tasks s))
             ∧ rows' = (λ x, if bool_decide (task_id x = id)
                             then set_title (trim t) (db_now e) x else x) <$> db_tasks s)
  ∨ (∃ id, r = DeleteTask (req_user r) id
           ∧ code (reply (handle e r) s) = 200
           ∧ rows' = filter (λ x, ¬ (task_id x = id ∧ task_user_id x = req_user r))
                       (db_tasks s)).
Proof.
  intros rows'. subst rows'.
  destruct (decide (code (reply (handle e r) s) = 200)) as [Hok|Hfail].
  - destruct r as [u title|u|u t status|u t title|u t]; cbn [handle req_user] in *.
    + destruct (createTask_success e u title s Hok) as (t & -> & ? & ? & ? & _).
      right; left. by exists t.
    + left. by destruct (handle_effect e (ListTasks u) s).
    + destruct (updateStatus_success e u t status s Hok) as (st & -> & ? & ? & _ & ? & _).
      right; right; left. by exists t, st.
    + destruct (editTitle_success e u t title s Hok) as (_ & ? & Hrows & _).
      revert Hok Hrows. unfold_handlers.
      destruct title as [| | | | |tt| |]; cbn; rewrite ?orb_true_r; cbn; try done.
      intros _ Hrows. right; right; right; left. by exists t, tt.
    + destruct (deleteTask_success e u t s Hok) as (_ & ? & _).
      right; right; right; right. by exists t.
  - left. rewrite (handle_failure e r s Hfail). by destruct (is_mutation r).
Qed.

Lemma handle_row_ok `{Platform} (e : Env) (r : Request) (s : State) :
  Forall row_ok (db_tasks s) → Forall row_ok (db_tasks (after (handle e r) s)).
Proof.
  intros Hok.
  destruct (handle_rows e r s)
    as [->|[(t & _ & _ & _ & ->)|[(id & st & Hst & _ & _ & ->)
       |[(id & t & _ & _ & ->)|(id & _ & _ & ->)]]]]; [done|..].
  - apply Forall_app. split; [done|]. constructor; [|constructor].
    split; cbn; [unfold valid_statuses; left|apply trim_idempotent].
  - apply Forall_fmap. eapply Forall_impl; [exact Hok|].
    intros x [? ?]. cbn. case_bool_decide; by split.
  - apply Forall_fmap. eapply Forall_impl; [exact Hok|].
    intros x [? ?]. cbn. case_bool_decide; [|by split].
    split; [done|apply trim_idempotent].
  - apply Forall_forall. intros x [_ Hx]%list_elem_of_filter.
    by eapply Forall_forall in Hok.
Qed.

(** X8 — Whatever requests have been handled since startup, every stored
    task has one of the statuses TODO, IN_PROGRESS, DONE, a title that [trim]
    leaves as it is, and an id no other task has. *)
Theorem stored_tasks_wellformed `{Platform} (rs : list (Env * Request)) :
  let rows := db_tasks (run rs init) in
  NoDup (task_id <$> rows)
  ∧ ∀ r, r ∈ rows →
      task_status r ∈ [js "TODO"; js "IN_PROGRESS"; js "DONE"]
      ∧ trim (task_title r) = task_title r.
Proof.
  cbn zeta. split.
  - apply run_pk_ok. constructor.
  - apply Forall_forall.
    assert (∀ s, Forall row_ok (db_tasks s) → Forall row_ok (db_tasks (run rs s))) as Hrun.
    { induction rs as [|[e r] rs IH]; intros s Hs; [done|].
      cbn. by apply IH, handle_row_ok. }
    apply Hrun. constructor.
Qed.

(** X9 — [editTitle] does not ask what [createTask] asks: a title made of
    whitespace only, which [createTask] refuses, is accepted by [editTitle]
    for a task of the caller, and the stored title becomes the empty
    string. *)
Theorem editTitle_blank_title `{Platform} (e : Env) (u t : jstr) (title : jstr)
    (x : Task) (s : State) :
  title ≠ [] → forallb is_js_whitespace title = true →
  x ∈ db_tasks s → task_id x = t → task_user_id x = u →
  err1 e = false → err2 e = false →
  code (reply (createTask e u (JString title)) s) = 400
  ∧ reply (editTitle e u t (JString title)) s = {| code := 200; body := BTitle t title |}
  ∧ set_title [] (db_now e) x ∈ db_tasks (after (editTitle e u t (JString title)) s).
Proof.
  intros Hne Hws Hx Hid Hu Herr1 Herr2.
  pose proof (trim_whitespace title Hws) as Htrim.
  assert (sql_select_owned t u (db_tasks s) = Some t) as Hsel.
  { subst t u. by apply sql_select_owned_found. }
  split_and!.
  - unfold_handlers. cbn. rewrite Htrim. cbn. by rewrite orb_true_r.
  - unfold_handlers. destruct title as [|c title]; [done|]. cbn.
    rewrite Herr1. cbn. rewrite Hsel, Herr2. cbn. by destruct (log_err e).
  - assert (code (reply (editTitle e u t (JString title)) s) = 200) as Hok.
    { unfold_handlers. destruct title as [|c title]; [done|]. cbn.
      rewrite Herr1. cbn. rewrite Hsel, Herr2. cbn. by destruct (log_err e). }
    destruct (editTitle_success e u t (JString title) s Hok) as (_ & _ & -> & _).
    cbn [str_of]. rewrite Htrim. apply list_elem_of_fmap. exists x.
    by rewrite bool_decide_eq_true_2.
Qed.

Lemma editTitle_blank_title_witness :
  code (reply (createTask (H:=stable_engine) env0 alice (JString (js "  "))) (with_tasks [milk])) = 400
  ∧ reply (editTitle (H:=stable_engine) env0 alice (js "t1") (JString (js "  "))) (with_tasks [milk])
    = {| code := 200; body := BTitle (js "t1") (js "  ") |}
  ∧ set_title [] (db_now env0) milk
    ∈ db_tasks (after (editTitle (H:=stable_engine) env0 alice (js "t1") (JString (js "  ")))
                  (with_tasks [milk])).
Proof.
  apply (editTitle_blank_title (H:=stable_engine) env0 alice (js "t1") (js "  ") milk
           (with_tasks [milk])); try reflexivity.
  - discriminate.
  - apply list_elem_of_singleton. reflexivity.
Defined.

(** ** Creating, updating and deleting, then listing *)









(** ** Users do not see each other *)

Lemma handle_other_user `{Platform} (u : jstr) (e : Env) (r : Request) (s : State) :
  pk_ok (db_tasks s) → req_user r ≠ u →
  filter (owned_by u) (db_tasks (after (handle e r) s)) = filter (owned_by u) (db_tasks s)
  ∧ cache (after (handle e r) s) !! u = cache s !! u.
Proof.
  intros Hpk Hne.
  destruct (handle_effect e r s) as [-> ->|_ -> ->|_ Hch ->]; [done|..].
  - by rewrite lookup_insert_ne.
  - rewrite lookup_delete_ne by done. split; [|done].
    by eapply store_change_other.
Qed.

(** X13 — Requests of other users leave a user alone: over any sequence
    of task requests none of which is made by [u], the rows of [u] stay the
    same, in the same order, and so does the cache entry of [u]. *)
Theorem other_users_requests `{Platform} (u : jstr) (rs : list (Env * Request)) (s : State) :
  pk_ok (db_tasks s) →
  Forall (λ er, req_user er.2 ≠ u) rs →
  filter (owned_by u) (db_tasks (run rs s)) = filter (owned_by u) (db_tasks s)
  ∧ cache (run rs s) !! u = cache s !! u.
Proof.
  revert s. induction rs as [|[e r] rs IH]; intros s Hpk Hrs; [done|].
  apply Forall_cons in Hrs as [Hr Hrs]. cbn in *.
  destruct (handle_other_user u e r s Hpk Hr) as [Hrows Hcache].
  destruct (IH (after (handle e r) s)) as [-> ->]; [by apply handle_pk_ok|done|done].
Qed.

Lemma other_users_requests_witness :
  let s := after (listTasks (H:=stable_engine) env0 alice) (with_tasks [milk]) in
  filter (owned_by alice) (db_tasks (run (H:=stable_engine) bob_busy s))
  = filter (owned_by alice) (db_tasks s)
  ∧ cache (run (H:=stable_engine) bob_busy s) !! alice = cache s !! alice.
Proof.
  apply (other_users_requests (H:=stable_engine) alice bob_busy).
  - apply NoDup_singleton.
  - repeat constructor; discriminate.
Defined.

(** ** What never changes in a task *)

Lemma handle_keeps_identity `{Platform} (e : Env) (r : Request) (s : State) (x : Task) :
  x ∈ db_tasks s →
  (∃ x', x' ∈ db_tasks (after (handle e r) s) ∧ same_identity x x')
  ∨ r = DeleteTask (task_user_id x) (task_id x).
Proof.
  intros Hx.
  destruct (handle_rows e r s)
    as [->|[(t & _ & _ & _ & ->)|[(id & st & _ & _ & _ & ->)
       |[(id & t & _ & _ & ->)|(id & Hr & _ & ->)]]]].
  - left. by exists x.
  - left. exists x. split; [|done]. apply elem_of_app. by left.
  - left. eexists. split; [by apply list_elem_of_fmap_2|].
    by case_bool_decide.
  - left. eexists. split; [by apply list_elem_of_fmap_2|].
    by case_bool_decide.
  - destruct (decide (task_id x = id ∧ task_user_id x = req_user r)) as [[Hid Hu]|Hkeep].
    + right. rewrite Hr. by rewrite Hid, Hu.
    + left. exists x. split; [|done]. by apply list_elem_of_filter.
Qed.

(** X14 — Identity of a task: through any sequence of task requests, a
    stored task keeps its id, its owner and its creation time, and it stays
    in the store unless its owner asks to delete it by its id. *)
Theorem task_identity_kept `{Platform} (rs : list (Env * Request)) (s : State) (x : Task) :
  x ∈ db_tasks s →
  Forall (λ er, er.2 ≠ DeleteTask (task_user_id x) (task_id x)) rs →
  ∃ x', x' ∈ db_tasks (run rs s)
        ∧ task_id x' = task_id x ∧ task_user_id x' = task_user_id x
        ∧ task_created_at x' = task_created_at x.
Proof.
  revert s x. induction rs as [|[e r] rs IH]; intros s x Hx Hrs.
  - by exists x.
  - apply Forall_cons in Hrs as [Hr Hrs]. cbn in *.
    destruct (handle_keeps_identity e r s x Hx) as [(x1 & Hx1 & Hid & Hu & Hc)|Hdel]; [|done].
    destruct (IH _ x1 Hx1) as (x' & Hx' & ? & ? & ?).
    + by rewrite Hid, Hu.
    + exists x'. split; [done|]. split_and!; congruence.
Qed.

Lemma task_identity_kept_witness :
  ∃ x', x' ∈ db_tasks (run (H:=stable_engine) alice_busy (with_tasks [milk; eggs]))
        ∧ task_id x' = task_id milk ∧ task_user_id x' = task_user_id milk
        ∧ task_created_at x' = task_created_at milk.
Proof.
  apply (task_identity_kept (H:=stable_engine) alice_busy (with_tasks [milk; eggs]) milk).
  - left.
  - repeat constructor; discriminate.
Defined.

(** ** Counters *)

Lemma handle_counters `{Platform} (e : Env) (r : Request) (s : State) :
  let s' := after (handle e r) s in
  (cacheHits s' + cacheMisses s'
   = cacheHits s + cacheMisses s + if is_list r then 1 else 0)%N
  ∧ (cacheHits s ≤ cacheHits s')%N ∧ (cacheMisses s ≤ cacheMisses s')%N.
Proof.
  destruct r as [u title|u|u t status|u t title|u t];
    unfold_handlers; cbn; case_route; cbn; lia.
Qed.

Lemma size_insert_le {A} (k : jstr) (v : A) (m : gmap jstr A) :
  (size (<[k := v]> m) ≤ S (size m))%nat.
Proof. rewrite map_size_insert. destruct (m !! k); cbn; lia. Qed.

Lemma size_delete_le {A} (k : jstr) (m : gmap jstr A) :
  (size (delete k m) ≤ size m)%nat.
Proof. rewrite map_size_delete. destruct (m !! k); cbn; lia. Qed.

(** Entries are only added by a listing that missed. *)
Lemma handle_cache_size `{Platform} (e : Env) (r : Request) (s : State) :
  let s' := after (handle e r) s in
  (N.of_nat (size (cache s)) ≤ cacheMisses s)%N →
  (N.of_nat (size (cache s')) ≤ cacheMisses s')%N.
Proof.
  destruct r as [u title|u|u t status|u t title|u t];
    unfold_handlers; cbn; case_route; cbn; intros Hs; try done;
    try (pose proof (size_delete_le u (cache s)); lia);
    try (pose proof (size_delete_le u (cache (set_db_tasks l s))); cbn in *; lia);
    try (pose proof (size_insert_le u
           {| ts := now_put e; tasks := sql_select_tasks u (db_tasks s) |} (cache s)); lia);
    lia.
Qed.

(** X15 — What [/metrics] counts: since startup, [cacheHits] plus
    [cacheMisses] is the number of list requests handled, the other task
    requests leaving both alone; and [cacheSize] never exceeds
    [cacheMisses], an entry being added only by a listing that missed. *)
Theorem metrics_count_listings `{Platform} (rs : list (Env * Request)) :
  let m := metrics (run rs init) in
  (metrics_cacheHits m + metrics_cacheMisses m
   = N.of_nat (length (filter (λ er, is_list er.2 = true) rs)))%N
  ∧ (N.of_nat (metrics_cacheSize m) ≤ metrics_cacheMisses m)%N.
Proof.
  cbn zeta. unfold metrics. cbn [metrics_cacheHits metrics_cacheMisses metrics_cacheSize].
  assert (∀ s,
    (cacheHits (run rs s) + cacheMisses (run rs s)
     = cacheHits s + cacheMisses s
       + N.of_nat (length (filter (λ er, is_list er.2 = true) rs)))%N
    ∧ ((N.of_nat (size (cache s)) ≤ cacheMisses s)%N →
       (N.of_nat (size (cache (run rs s))) ≤ cacheMisses (run rs s))%N)) as Hrun.
  { induction rs as [|[e r] rs IH]; intros s; [split; [cbn; lia|done]|].
    cbn [run]. destruct (IH (after (handle e r) s)) as [Hsum Hsize].
    destruct (handle_counters e r s) as (Hstep & _). split.
    - rewrite Hsum, Hstep, filter_cons. cbn [snd].
      destruct (is_list r); [rewrite decide_True by done|rewrite decide_False by done];
        cbn [length]; lia.
    - intros Hs. by apply Hsize, handle_cache_size. }
  destruct (Hrun init) as [Hsum Hsize]. split; [by rewrite Hsum|].
  apply Hsize. cbn. rewrite map_size_empty. lia.
Qed.

(** The counters after the requests of the buy-milk scenario. *)
Example metrics_example :
  metrics (run (H:=stable_engine)
             [(env0, CreateTask alice (JString (js "buy milk")));
              (env0, ListTasks alice); (env0, ListTasks alice);
              (env0, mark_done); (env0, ListTasks alice); (env0, ListTasks bob)] init)
  = {| metrics_cacheHits := 1; metrics_cacheMisses := 3; metrics_cacheSize := 2 |}.
Proof. vm_compute. reflexivity. Qed.

(** X16 — The cache is not seen in what a listing returns: whatever task
    requests have been handled since startup, the tasks of a [listTasks]
    reply, served from the cache or not, are what the list query gives on
    the store at that moment. *)
Theorem listTasks_as_fresh `{Platform} (rs : list (Env * Request)) (e : Env) (u : jstr)
    (cached : bool) (rows : list TaskView) :
  body (reply (listTasks e u) (run rs init)) = BList cached rows →
  rows = sql_select_tasks u (db_tasks (run rs init)).
Proof.
  apply listTasks_coherent, run_coherent; [constructor|].
  intros entry. cbn. by rewrite lookup_empty.
Qed.

Lemma listTasks_as_fresh_witness :
  ∃ rows,
    body (reply (listTasks (H:=stable_engine) env0 alice)
            (run (H:=stable_engine)
               [(env0, CreateTask alice (JString (js "buy milk"))); (env0, ListTasks alice)] init))
    = BList true rows
    ∧ rows = sql_select_tasks (H:=stable_engine) alice
               (db_tasks (run (H:=stable_engine)
                  [(env0, CreateTask alice (JString (js "buy milk"))); (env0, ListTasks alice)] init)).
Proof.
  eexists. split; [reflexivity|].
  apply (listTasks_as_fresh (H:=stable_engine)
           [(env0, CreateTask alice (JString (js "buy milk"))); (env0, ListTasks alice)]
           env0 alice true).
  reflexivity.
Defined.

(** ** The audit trail *)

Arguments audit_row : simpl never.

(** X17 — One row per accepted request: a task request answered 200
    appends exactly one row to [logs], carrying its method, its path (marked
    [(cached)] for a listing served from the cache), the caller and the body
    sent, unless the INSERT fails, in which case nothing is appended; a
    request that is not answered 200 appends nothing; rows already written
    are never changed. *)
Theorem audit_accounting `{Platform} (e : Env) (r : Request) (s : State) :
  let resp := reply (handle e r) s in
  db_logs (after (handle e r) s)
  = db_logs s ++
    (if bool_decide (code resp = 200) && negb (log_err e)
     then [audit_row e r (served_from_cache (body resp))]
     else []).
Proof.
  cbn zeta. unfold audit_row.
  destruct r as [u title|u|u t status|u t title|u t];
    unfold_handlers; cbn; case_route; cbn; by rewrite ?app_nil_r.
Qed.

(** What the buy-milk scenario leaves in the log. *)
Example audit_example :
  (λ row, (log_method row, log_path row)) <$>
    db_logs (run (H:=stable_engine)
               [(env0, CreateTask alice (JString (js "buy milk")));
                (env0, CreateTask alice (JString (js "  ")));
                (env0, ListTasks alice); (env0, ListTasks alice);
                (env0, DeleteTask bob (js "t1"));
                (with_log_err true env0, mark_done)] init)
  = [(js "POST", js "/api/tasks"); (js "GET", js "/api/tasks");
     (js "GET", js "/api/tasks (cached)")].
Proof. vm_compute. reflexivity. Qed.

(** ** [GET /api/logs/recent] *)

Lemma insert_log_desc_perm (x : nat * LogRow) (l : list (nat * LogRow)) :
  insert_log_desc x l ≡ₚ x :: l.
Proof.
  induction l as [|y l IH]; cbn; [done|].
  case_bool_decide; [done|]. rewrite IH. apply Permutation_swap.
Qed.

Lemma insert_log_desc_sorted (x : nat * LogRow) (l : list (nat * LogRow)) :
  StronglySorted logged_desc l → StronglySorted logged_desc (insert_log_desc x l).
Proof.
  induction l as [|y l IH]; cbn.
  - intros _. by repeat constructor.
  - intros [Hy Hl]%StronglySorted_cons. case_bool_decide as Hle.
    + constructor; [by constructor|]. constructor; [done|].
      eapply Forall_impl; [exact Hy|]. unfold logged_desc. intros z Hz. lia.
    + constructor; [by apply IH|].
      rewrite insert_log_desc_perm. constructor; [|done]. unfold logged_desc. lia.
Qed.

#[global] Instance stable_log_engine_laws : LogOrderLaws stable_log_engine.
Proof.
  split; cbn.
  - intros rows. induction rows as [|x rows IH]; cbn; [done|].
    by rewrite insert_log_desc_perm, IH.
  - intros rows. induction rows as [|x rows IH]; cbn; [constructor|].
    by apply insert_log_desc_sorted.
Qed.

(** X18 — Recent activity: when the query succeeds, [/api/logs/recent]
    returns at most 50 log rows, all of them rows of the caller, none before
    a row created later; a row of the caller is left out only when 50 are
    returned, none of them created earlier than it; the request changes
    nothing and is not itself logged. *)
Theorem recentLogs_spec `{L : LogEngine} `{!LogOrderLaws L} (e : Env) (u : jstr) (s : State) :
  err1 e = false →
  ∃ picked,
    recentLogs e u s = (LogsRows (log_view <$> picked), s, [EvDbRead; EvRespond 200])
    ∧ (length picked ≤ 50)%nat
    ∧ StronglySorted logged_desc picked
    ∧ (∀ ir, ir ∈ picked →
         log_user_id ir.2 = Some u ∧ db_logs s !! pred ir.1 = Some ir.2 ∧ (0 < ir.1)%nat)
    ∧ (∀ i row, db_logs s !! i = Some row → log_user_id row = Some u →
         (S i, row) ∉ picked →
         length picked = 50%nat
         ∧ ∀ jr, jr ∈ picked → log_created_at row ≤ log_created_at jr.2).
Proof.
  intros Herr. unfold recentLogs. rewrite Herr.
  set (mine := filter (logged_by u) (with_rowid (db_logs s))).
  set (sorted := order_logs_by_created_at_desc mine).
  exists (take 50 sorted). unfold sql_select_recent_logs. fold mine sorted.
  pose proof (order_logs_sorted mine) as Hsorted. fold sorted in Hsorted.
  pose proof (order_logs_perm mine) as Hperm. fold sorted in Hperm.
  rewrite <- (take_drop 50 sorted) in Hsorted.
  split_and!.
  - done.
  - rewrite length_take. lia.
  - by eapply StronglySorted_app_1_l.
  - intros ir Hin%subseteq_take. rewrite Hperm in Hin.
    apply list_elem_of_filter in Hin as [Hu Hin].
    apply elem_of_lookup_imap in Hin as (i & row & -> & Hrow).
    split_and!; [exact Hu|exact Hrow|cbn; lia].
  - intros i row Hrow Hu Hout.
    assert ((S i, row) ∈ sorted) as Hin.
    { rewrite Hperm. apply list_elem_of_filter. split; [done|].
      by apply (elem_of_lookup_imap_2 (λ i r, (S i, r))). }
    rewrite <- (take_drop 50 sorted) in Hin.
    apply elem_of_app in Hin as [?|Hdrop]; [done|]. split.
    + rewrite length_take. apply list_elem_of_lookup in Hdrop as [k Hk].
      apply lookup_lt_Some in Hk. rewrite length_drop in Hk. lia.
    + intros jr Hjr.
      by apply (StronglySorted_app_1_elem_of _ _ _ jr (S i, row) Hsorted).
Qed.

Lemma recentLogs_spec_witness :
  let s := with_logs [log_at 3; log_at 9; log_at 5] in
  ∃ picked,
    recentLogs (H:=stable_log_engine) env0 alice s
    = (LogsRows (log_view <$> picked), s, [EvDbRead; EvRespond 200])
    ∧ (length picked ≤ 50)%nat
    ∧ StronglySorted logged_desc picked
    ∧ (∀ ir, ir ∈ picked →
         log_user_id ir.2 = Some alice ∧ db_logs s !! pred ir.1 = Some ir.2 ∧ (0 < ir.1)%nat)
    ∧ (∀ i row, db_logs s !! i = Some row → log_user_id row = Some alice →
         (S i, row) ∉ picked →
         length picked = 50%nat
         ∧ ∀ jr, jr ∈ picked → log_created_at row ≤ log_created_at jr.2).
Proof.
  apply (recentLogs_spec (L:=stable_log_engine) env0 alice
           (with_logs [log_at 3; log_at 9; log_at 5])).
  reflexivity.
Defined.

(** The ids and times it returns on those three rows. *)
Example recentLogs_example :
  (recentLogs (H:=stable_log_engine) env0 alice (with_logs [log_at 3; log_at 9; log_at 5])).1.1
  = LogsRows (log_view <$> [(2%nat, log_at 9); (3%nat, log_at 5); (1%nat, log_at 3)])
  ∧ (recentLogs (H:=stable_log_engine) env0 bob (with_logs [log_at 3; log_at 9; log_at 5])).1.1
    = LogsRows [].
Proof. vm_compute. done. Qed.
